(** * Quad-precision compatibility shim (compiler_rt_stubs.c)

    The C file implements the soft-float entry points a code generator
    emits for 128-bit floats ([__divtf3], [__eqtf2], ...) by forwarding
    each one to the native operator on [long double].  This development
    embeds every function of the file over the IEEE-754 model of the
    standard library ([SpecFloat]): a floating-point datum is a
    [spec_float], the arithmetic of a format is [SFdiv], [SFmul],
    [binary_round], and the comparison operators are read off
    [SFcompare].

    The width of [long double] is not fixed by the file (its header says
    "80-bit on x86, 64-bit on ARM"), so the format is a parameter [ld];
    the two formats the header names are [binary64] and [x87_extended]. *)

From Stdlib Require Import ZArith Lia Bool QArith Qabs SpecFloat.

Local Open Scope Z_scope.

(** ** Floating-point formats *)

(** [fprec] is the number of significand bits (hidden bit included),
    [femax] the exponent of the infinities, as in [SpecFloat]. *)
Record fformat : Set := mk_fformat { fprec : Z; femax : Z }.

(** C [float]. *)
Definition binary32 : fformat := mk_fformat 24 128.
(** [long double] on ARM64 (the iOS target): the same as [double]. *)
Definition binary64 : fformat := mk_fformat 53 1024.
(** [long double] on x86: the 80-bit extended format. *)
Definition x87_extended : fformat := mk_fformat 64 16384.

(** A datum belongs to a format when its mantissa is canonical and its
    exponent bounded. *)
Definition valid_in (fmt : fformat) (x : spec_float) : bool :=
  valid_binary (fprec fmt) (femax fmt) x.

Definition is_nan (x : spec_float) : bool :=
  match x with S754_nan => true | _ => false end.

Definition is_zero (x : spec_float) : bool :=
  match x with S754_zero _ => true | _ => false end.

Definition is_finite (x : spec_float) : bool :=
  match x with S754_zero _ | S754_finite _ _ _ => true | _ => false end.

(** The rational number a finite datum stands for: [(-1)^s * m * 2^e]. *)
Definition pow2Q (e : Z) : Q :=
  match e with
  | Z0 => 1%Q
  | Zpos p => inject_Z (Z.pow_pos 2 p)
  | Zneg p => Qmake 1 (Pos.pow 2 p)
  end.

Definition SF2Q (x : spec_float) : option Q :=
  match x with
  | S754_zero _ => Some 0%Q
  | S754_finite s m e => Some (inject_Z (cond_Zopp s (Zpos m)) * pow2Q e)%Q
  | _ => None
  end.

(** ** The C operators on floating operands

    The six relational operators of C on IEEE operands: each is one of
    the outcomes of the four-way comparison, and all but [!=] are false
    on unordered operands. *)

Definition fp_eq (a b : spec_float) : bool := SFeqb a b.

Definition fp_ne (a b : spec_float) : bool :=
  match SFcompare a b with
  | Some Eq => false
  | _ => true
  end.

Definition fp_lt (a b : spec_float) : bool := SFltb a b.

Definition fp_gt (a b : spec_float) : bool :=
  match SFcompare a b with
  | Some Gt => true
  | _ => false
  end.

Definition fp_le (a b : spec_float) : bool := SFleb a b.

Definition fp_ge (a b : spec_float) : bool :=
  match SFcompare a b with
  | Some (Gt | Eq) => true
  | _ => false
  end.

(** A C truth value as an [int], and logical negation [!]. *)
Definition int_of_bool (b : bool) : Z := if b then 1 else 0.
Definition lnot (b : bool) : Z := if b then 0 else 1.

(** Conversion between floating formats: the value is rounded to nearest
    (ties to even) in the destination format; zeros, infinities and NaN
    are carried over. *)
Definition fconv (dst : fformat) (x : spec_float) : spec_float :=
  match x with
  | S754_finite s m e => binary_round (fprec dst) (femax dst) s m e
  | _ => x
  end.

(** Conversion of an integer to a floating format. *)
Definition fp_of_Z (dst : fformat) (n : Z) : spec_float :=
  binary_normalize (fprec dst) (femax dst) n 0 false.

(** The integral part of a finite datum, the fraction discarded: the
    magnitude [m * 2^e] loses its low [-e] bits when [e] is negative. *)
Definition integral_part (x : spec_float) : option Z :=
  match x with
  | S754_zero _ => Some 0
  | S754_finite s m e =>
      Some (cond_Zopp s (match e with
                         | Zneg p => Z.shiftr (Zpos m) (Zpos p)
                         | _ => Z.shiftl (Zpos m) e
                         end))
  | _ => None
  end.

Definition INT_MIN : Z := - 2 ^ 31.
Definition INT_MAX : Z := 2 ^ 31 - 1.
Definition UINT_MAX : Z := 2 ^ 32 - 1.
Definition UINT64_MAX : Z := 2 ^ 64 - 1.

(** A cast from a floating type to an integer type: defined when the
    integral part fits the destination, undefined ([None]) otherwise and
    on infinities and NaN. *)
Definition cast_to_integer (lo hi : Z) (x : spec_float) : option Z :=
  match integral_part x with
  | Some z => if (lo <=? z) && (z <=? hi) then Some z else None
  | None => None
  end.

(** ** The functions of compiler_rt_stubs.c *)

Definition fp128 : Set := spec_float.

Section Shim.

(** The format of the platform's [long double]. *)
Variable ld : fformat.

(** [truncl] belongs to the C library, not to this file. *)
Variable truncl : fp128 -> fp128.

Definition __divtf3 (a b : fp128) : fp128 :=
  SFdiv (fprec ld) (femax ld) a b.

Definition __eqtf2 (a b : fp128) : Z :=
  lnot (fp_eq a b).

Definition __netf2 (a b : fp128) : Z :=
  int_of_bool (fp_ne a b).

Definition __lttf2 (a b : fp128) : Z :=
  if fp_lt a b then -1
  else if fp_eq a b then 0
  else 1.

Definition __gttf2 (a b : fp128) : Z :=
  if fp_gt a b then 1
  else if fp_eq a b then 0
  else -1.

Definition __getf2 (a b : fp128) : Z :=
  if fp_ge a b then 0
  else -1.

Definition __letf2 (a b : fp128) : Z :=
  if fp_le a b then 0
  else 1.

Definition __multf3 (a b : fp128) : fp128 :=
  SFmul (fprec ld) (femax ld) a b.

Definition __extendsftf2 (a : spec_float) : fp128 :=
  fconv ld a.

Definition __trunctfsf2 (a : fp128) : spec_float :=
  fconv binary32 a.

Definition __fixtfsi (a : fp128) : option Z :=
  cast_to_integer INT_MIN INT_MAX a.

Definition __fixunstfsi (a : fp128) : option Z :=
  cast_to_integer 0 UINT_MAX a.

Definition __floatuntitf (a : Z) : fp128 :=
  fp_of_Z ld a.

Definition truncq (x : fp128) : fp128 :=
  truncl x.

End Shim.

(** ** Notions the statements use *)

(** [big] has at least the precision and the exponent range of [small]. *)
Definition wider_than (small big : fformat) : Prop :=
  fprec small <= fprec big /\ femax small <= femax big.

(** The datum [x] is finite and numerically equal to the integer [n]. *)
Definition represents (x : spec_float) (n : Z) : Prop :=
  match SF2Q x with
  | Some q => (q == inject_Z n)%Q
  | None => False
  end.

(** The integer [z] is the rational [v] truncated toward zero:
    [|z| <= |v| < |z| + 1], and [z] is not of the sign opposite to [v]. *)
Definition truncates_toward_zero (z : Z) (v : Q) : Prop :=
  (Qabs (inject_Z z) <= Qabs v)%Q /\
  (Qabs v < Qabs (inject_Z z) + 1)%Q /\
  (0 <= inject_Z z * v)%Q.

Definition sign_of (x : spec_float) : bool :=
  match x with
  | S754_zero s | S754_infinity s | S754_finite s _ _ => s
  | S754_nan => false
  end.

Definition exponent_of (x : spec_float) : Z :=
  match x with S754_finite _ _ e => e | _ => 0 end.

(** The value of a finite datum scaled by [2^k]: an integer once [k]
    makes up for the exponent. *)
Definition scaled (k : Z) (x : spec_float) : Z :=
  match x with
  | S754_finite s m e => cond_Zopp s (Zpos m * 2 ^ (e + k))
  | _ => 0
  end.

(** [x] is a finite datum of the format [fmt] and stands for the
    rational [v]. *)
Definition has_value (fmt : fformat) (x : spec_float) (v : Q) : Prop :=
  valid_in fmt x = true /\ SF2Q x = Some v.

Definition is_infinite (x : spec_float) : bool :=
  match x with S754_infinity _ => true | _ => false end.

(** The outcome of [a ? c] from the outcomes of [a ? b] and [b ? c] when
    neither is [Gt]. *)
Definition le_then (o1 o2 : comparison) : comparison :=
  match o1, o2 with
  | Eq, Eq => Eq
  | _, _ => Lt
  end.

(** ** Sample operands *)

(** 1.0, 2.0 and 2.9 as [double] (the nearest double to 2.9 is
    0x4007333333333333) and 2.9f as [float] (0x4039999A). *)
Definition d_one : spec_float := S754_finite false 4503599627370496 (-52).
Definition d_two : spec_float := S754_finite false 4503599627370496 (-51).
Definition d_2_9 : spec_float := S754_finite false 6530219459687219 (-51).
Definition f_2_9 : spec_float := S754_finite false 12163482 (-22).

(** 2.9 in the format [ld]: the quotient 29/10, correctly rounded. *)
Definition q_2_9 (ld : fformat) : fp128 :=
  __divtf3 ld (fp_of_Z ld 29) (fp_of_Z ld 10).

(** The least [long double] above 1 in the format [ld]. *)
Definition q_one_ulp (ld : fformat) : fp128 :=
  S754_finite false (Pos.succ (Z.to_pos (2 ^ (fprec ld - 1)))) (1 - fprec ld).

(** ** Mantissas: digits and shifts *)

Lemma digits2_pos_iter_xO (m k : positive) :
  Zpos (digits2_pos (Pos.iter xO m k)) = Zpos (digits2_pos m) + Zpos k.
Proof.
  induction k as [|k IH] using Pos.peano_ind.
  - cbn. lia.
  - rewrite Pos.iter_succ. cbn [digits2_pos]. lia.
Qed.

Lemma iter_pos_iter {A : Type} (f : A -> A) (n : positive) (x : A) :
  iter_pos f n x = Pos.iter f x n.
Proof.
  revert x. induction n as [n IH|n IH|]; intros x; cbn.
  - rewrite !IH, <- !Pos.iter_swap. reflexivity.
  - rewrite !IH. reflexivity.
  - reflexivity.
Qed.

(** Shifting right by [k] undoes [k] doublings, with nothing shifted
    out. *)
Lemma shr_iter_xO (m k : positive) :
  iter_pos shr_1 k (Build_shr_record (Zpos (Pos.iter xO m k)) false false)
  = Build_shr_record (Zpos m) false false.
Proof.
  rewrite iter_pos_iter.
  induction k as [|k IH] using Pos.peano_ind.
  - reflexivity.
  - rewrite !Pos.iter_succ, <- Pos.iter_swap. cbn [shr_1 orb]. exact IH.
Qed.

Lemma iter_xO_pow2 (m k : positive) :
  Zpos (Pos.iter xO m k) = Zpos m * 2 ^ Zpos k.
Proof.
  induction k as [|k IH] using Pos.peano_ind.
  - cbn. lia.
  - rewrite Pos.iter_succ, Pos2Z.inj_xO, IH, Pos2Z.inj_succ, Z.pow_succ_r by lia.
    lia.
Qed.

Lemma digits2_pos_lower (m : positive) :
  2 ^ (Zpos (digits2_pos m) - 1) <= Zpos m.
Proof.
  induction m as [m IH|m IH|]; cbn [digits2_pos];
    try (rewrite Pos2Z.inj_succ;
         replace (Z.succ (Zpos (digits2_pos m)) - 1)
           with (Z.succ (Zpos (digits2_pos m) - 1)) by lia;
         rewrite Z.pow_succ_r by lia; lia).
  cbn. lia.
Qed.

Lemma digits2_pos_le (m : positive) (p : Z) :
  Zpos m < 2 ^ p -> Zpos (digits2_pos m) <= p.
Proof.
  intros H.
  destruct (Z_le_gt_dec (Zpos (digits2_pos m)) p) as [|Hgt]; [assumption|].
  exfalso. pose proof (digits2_pos_lower m) as Hl.
  assert (0 <= p \/ p < 0) as [Hp|Hp] by lia.
  - assert (2 ^ p <= 2 ^ (Zpos (digits2_pos m) - 1))
      by (apply Z.pow_le_mono_r; lia).
    lia.
  - rewrite Z.pow_neg_r in H by lia. lia.
Qed.

(** ** Comparison: facts about the four-way compare *)

Lemma SFcompare_swap (a b : spec_float) :
  SFcompare b a = option_map CompOpp (SFcompare a b).
Proof.
  destruct a as [sa|sa| |sa ma ea], b as [sb|sb| |sb mb eb]; cbn;
    try reflexivity;
    try (destruct sa; reflexivity);
    try (destruct sb; reflexivity);
    try (destruct sa, sb; reflexivity).
  destruct sa, sb; cbn; try reflexivity;
    rewrite (Z.compare_antisym ea eb);
    destruct (ea ?= eb); cbn; try reflexivity;
    rewrite !Pos.compare_cont_spec; cbn;
    rewrite (Pos.compare_antisym ma mb);
    destruct (ma ?= mb)%positive; reflexivity.
Qed.

Lemma SFcompare_nan_l (b : spec_float) : SFcompare S754_nan b = None.
Proof. reflexivity. Qed.

Lemma SFcompare_nan_r (a : spec_float) : SFcompare a S754_nan = None.
Proof. destruct a; reflexivity. Qed.

Lemma SFcompare_refl (a : spec_float) :
  is_nan a = false -> SFcompare a a = Some Eq.
Proof.
  destruct a as [s|s| |s m e]; cbn; intros H; try discriminate.
  - reflexivity.
  - destruct s; reflexivity.
  - rewrite Z.compare_refl, Pos.compare_cont_refl. destruct s; reflexivity.
Qed.

(** The compare answers [Eq] on two zeros of any sign and, apart from
    that, only on identical operands. *)
Lemma SFcompare_Eq_inv (a b : spec_float) :
  SFcompare a b = Some Eq ->
  (a = b /\ is_nan a = false) \/ (is_zero a = true /\ is_zero b = true).
Proof.
  destruct a as [sa|sa| |sa ma ea], b as [sb|sb| |sb mb eb]; cbn;
    intros H; try discriminate; try (right; split; reflexivity);
    try (destruct sa; discriminate); try (destruct sb; discriminate).
  - destruct sa, sb; try discriminate; left; split; reflexivity.
  - left. split; [|reflexivity].
    destruct sa, sb; try discriminate;
      destruct (ea ?= eb) eqn:He; try discriminate;
      apply Z.compare_eq in He; subst eb;
      rewrite Pos.compare_cont_spec in H; cbn in H;
      destruct (ma ?= mb)%positive eqn:Hm; try discriminate;
      apply Pos.compare_eq in Hm; subst mb; reflexivity.
Qed.

(** The relational operators in terms of the four-way compare. *)
Lemma fp_ne_negb_eq (a b : spec_float) : fp_ne a b = negb (fp_eq a b).
Proof.
  unfold fp_ne, fp_eq, SFeqb.
  destruct (SFcompare a b) as [[ | | ]|]; reflexivity.
Qed.

Lemma fp_gt_swap (a b : spec_float) : fp_gt b a = fp_lt a b.
Proof.
  unfold fp_gt, fp_lt, SFltb. rewrite (SFcompare_swap a b).
  destruct (SFcompare a b) as [[ | | ]|]; reflexivity.
Qed.

Lemma fp_ge_swap (a b : spec_float) : fp_ge b a = fp_le a b.
Proof.
  unfold fp_ge, fp_le, SFleb. rewrite (SFcompare_swap a b).
  destruct (SFcompare a b) as [[ | | ]|]; reflexivity.
Qed.

Lemma fp_eq_sym (a b : spec_float) : fp_eq b a = fp_eq a b.
Proof.
  unfold fp_eq, SFeqb. rewrite (SFcompare_swap a b).
  destruct (SFcompare a b) as [[ | | ]|]; reflexivity.
Qed.

Lemma unordered_compare (a b : spec_float) :
  is_nan a || is_nan b = true <-> SFcompare a b = None.
Proof.
  split.
  - destruct a, b; cbn; intros H; try discriminate; reflexivity.
  - destruct a as [sa|sa| |sa ma ea], b as [sb|sb| |sb mb eb]; cbn;
      intros H; try reflexivity; try discriminate;
      try (destruct sa; discriminate); try (destruct sb; discriminate).
Qed.

Ltac by_compare a b :=
  unfold fp_eq, fp_ne, fp_lt, fp_gt, fp_le, fp_ge, SFeqb, SFltb, SFleb in *;
  destruct (SFcompare a b) as [[ | | ]|]; cbn in *;
  try reflexivity; try discriminate; try congruence.

(** ** Comparison: the compare and the order of the values

    On finite data of one format the four-way compare is the order of
    the rational values: canonical mantissas make the exponents
    comparable. *)

Lemma digits2_pos_upper (m : positive) :
  Zpos m < 2 ^ Zpos (digits2_pos m).
Proof.
  induction m as [m IH|m IH|]; cbn [digits2_pos];
    try (rewrite Pos2Z.inj_succ, Z.pow_succ_r by lia; lia).
  cbn. lia.
Qed.

Lemma canonical_exponent_order (prec emax : Z) (m1 m2 : positive) (e1 e2 k : Z) :
  canonical_mantissa prec emax m1 e1 = true ->
  canonical_mantissa prec emax m2 e2 = true ->
  e1 < e2 -> 0 <= e1 + k ->
  Zpos m1 * 2 ^ (e1 + k) < Zpos m2 * 2 ^ (e2 + k).
Proof.
  unfold canonical_mantissa, fexp, emin. intros H1 H2 Hlt Hk.
  apply Z.eqb_eq in H1, H2.
  pose proof (digits2_pos_upper m1) as Hu.
  pose proof (digits2_pos_lower m2) as Hl.
  set (d1 := Zpos (digits2_pos m1)) in *.
  set (d2 := Zpos (digits2_pos m2)) in *.
  assert (Hd1 : 0 < d1) by (unfold d1; lia).
  assert (Hd2' : 0 < d2) by (unfold d2; lia).
  clearbody d1 d2.
  assert (Hd1p : d1 <= prec) by lia.
  assert (Hd2 : d2 = prec) by lia.
  assert (Ha : Zpos m1 * 2 ^ (e1 + k) < 2 ^ (d1 + (e1 + k))).
  { rewrite (Z.pow_add_r 2 d1 (e1 + k)) by lia.
    apply Z.mul_lt_mono_pos_r; [apply Z.pow_pos_nonneg; lia|assumption]. }
  assert (Hb : 2 ^ (d1 + (e1 + k)) <= 2 ^ ((d2 - 1) + (e2 + k)))
    by (apply Z.pow_le_mono_r; lia).
  assert (Hc : 2 ^ ((d2 - 1) + (e2 + k)) <= Zpos m2 * 2 ^ (e2 + k)).
  { rewrite (Z.pow_add_r 2 (d2 - 1) (e2 + k)) by lia.
    apply Z.mul_le_mono_nonneg_r; [apply Z.pow_nonneg; lia|assumption]. }
  lia.
Qed.

Lemma SFcompare_scaled (fmt : fformat) (k : Z) (a b : spec_float) :
  valid_in fmt a = true -> valid_in fmt b = true ->
  is_finite a = true -> is_finite b = true ->
  0 <= k + match a with S754_finite _ _ e => e | _ => 0 end ->
  0 <= k + match b with S754_finite _ _ e => e | _ => 0 end ->
  SFcompare a b = Some (scaled k a ?= scaled k b).
Proof.
  destruct a as [sa|sa| |sa ma ea], b as [sb|sb| |sb mb eb];
    cbn [is_finite]; intros Va Vb Fa Fb Ka Kb; try discriminate.
  - reflexivity.
  - assert (0 < Zpos mb * 2 ^ (eb + k))
      by (apply Z.mul_pos_pos; [lia|apply Z.pow_pos_nonneg; lia]).
    destruct sb; cbn [SFcompare scaled cond_Zopp]; f_equal; symmetry.
    + apply Z.compare_gt_iff. lia.
    + apply Z.compare_lt_iff. lia.
  - assert (0 < Zpos ma * 2 ^ (ea + k))
      by (apply Z.mul_pos_pos; [lia|apply Z.pow_pos_nonneg; lia]).
    destruct sa; cbn [SFcompare scaled cond_Zopp]; f_equal; symmetry.
    + apply Z.compare_lt_iff. lia.
    + apply Z.compare_gt_iff. lia.
  - unfold valid_in in Va, Vb. cbn in Va, Vb.
    apply andb_prop in Va, Vb. destruct Va as [Ca _], Vb as [Cb _].
    assert (Ha : 0 < Zpos ma * 2 ^ (ea + k))
      by (apply Z.mul_pos_pos; [lia|apply Z.pow_pos_nonneg; lia]).
    assert (Hb : 0 < Zpos mb * 2 ^ (eb + k))
      by (apply Z.mul_pos_pos; [lia|apply Z.pow_pos_nonneg; lia]).
    assert (Hmag :
      match ea ?= eb with
      | Lt => Lt | Gt => Gt | Eq => Pos.compare_cont Eq ma mb
      end = (Zpos ma * 2 ^ (ea + k) ?= Zpos mb * 2 ^ (eb + k))).
    { destruct (Z.compare_spec ea eb) as [He|He|He].
      - subst eb. rewrite Pos.compare_cont_spec. cbn [Pos.switch_Eq].
        assert (HK : 0 < 2 ^ (ea + k)) by (apply Z.pow_pos_nonneg; lia).
        destruct (Pos.compare_spec ma mb) as [Hm|Hm|Hm]; symmetry.
        + subst mb. apply Z.compare_refl.
        + apply Z.compare_lt_iff. apply Z.mul_lt_mono_pos_r; lia.
        + apply Z.compare_gt_iff. apply Z.mul_lt_mono_pos_r; lia.
      - symmetry. apply Z.compare_lt_iff.
        apply (canonical_exponent_order _ _ _ _ _ _ _ Ca Cb); lia.
      - symmetry. apply Z.compare_gt_iff.
        apply (canonical_exponent_order _ _ _ _ _ _ _ Cb Ca); lia. }
    cbn [SFcompare scaled]. destruct sa, sb; f_equal; unfold cond_Zopp.
    + unfold cond_Zopp.
      rewrite Z.compare_opp,
        (Z.compare_antisym (Zpos ma * 2 ^ (ea + k)) (Zpos mb * 2 ^ (eb + k))),
        <- Hmag.
      destruct (ea ?= eb); reflexivity.
    + symmetry. apply Z.compare_lt_iff. lia.
    + symmetry. apply Z.compare_gt_iff. lia.
    + exact Hmag.
Qed.

Lemma pow2Q_scale (e k : Z) :
  0 <= k -> 0 <= e + k ->
  (pow2Q e * inject_Z (2 ^ k) == inject_Z (2 ^ (e + k)))%Q.
Proof.
  intros Hk Hek. destruct e as [|p|p]; cbn [pow2Q].
  - rewrite Z.add_0_l. apply Qmult_1_l.
  - rewrite <- inject_Z_mult, Z.pow_pos_fold, <- Z.pow_add_r by lia. reflexivity.
  - unfold Qeq, Qmult, inject_Z. cbn [Qnum Qden].
    rewrite Pos.mul_1_r, Z.mul_1_l, Z.mul_1_r, Pos2Z.inj_pow, <- Z.pow_add_r by lia.
    f_equal. lia.
Qed.

Lemma SF2Q_scaled (k : Z) (x : spec_float) (v : Q) :
  SF2Q x = Some v -> 0 <= k -> 0 <= exponent_of x + k ->
  (v * inject_Z (2 ^ k) == inject_Z (scaled k x))%Q.
Proof.
  destruct x as [s|s| |s m e]; cbn [SF2Q scaled exponent_of]; intros H Hk He;
    try discriminate; injection H as <-.
  - apply Qmult_0_l.
  - rewrite <- Qmult_assoc, pow2Q_scale by assumption.
    rewrite <- inject_Z_mult. destruct s; unfold cond_Zopp;
      rewrite ?Z.mul_opp_l; reflexivity.
Qed.

Lemma SFcompare_numeric (fmt : fformat) (a b : spec_float) (va vb : Q) :
  valid_in fmt a = true -> valid_in fmt b = true ->
  SF2Q a = Some va -> SF2Q b = Some vb ->
  SFcompare a b = Some (va ?= vb)%Q.
Proof.
  intros Va Vb Ha Hb.
  set (k := Z.max 0 (Z.max (- exponent_of a) (- exponent_of b))).
  assert (Hk : 0 <= k) by (unfold k; lia).
  assert (Hka : 0 <= exponent_of a + k) by (unfold k; lia).
  assert (Hkb : 0 <= exponent_of b + k) by (unfold k; lia).
  pose proof (SF2Q_scaled k a va Ha Hk Hka) as Sa.
  pose proof (SF2Q_scaled k b vb Hb Hk Hkb) as Sb.
  rewrite (SFcompare_scaled fmt k a b Va Vb).
  - f_equal. symmetry.
    assert (Hc : (0 < inject_Z (2 ^ k))%Q).
    { rewrite <- (Zlt_Qlt 0). apply Z.pow_pos_nonneg; lia. }
    destruct (Z.compare_spec (scaled k a) (scaled k b)) as [He|He|He].
    + apply Qeq_alt. apply (Qmult_inj_r va vb (inject_Z (2 ^ k))).
      * intros E. rewrite E in Hc. discriminate.
      * now rewrite Sa, Sb, He.
    + apply Qlt_alt. apply (Qmult_lt_r va vb (inject_Z (2 ^ k)) Hc).
      rewrite Sa, Sb. now rewrite <- Zlt_Qlt.
    + apply Qgt_alt. apply (Qmult_lt_r vb va (inject_Z (2 ^ k)) Hc).
      rewrite Sa, Sb. now rewrite <- Zlt_Qlt.
  - destruct a; try discriminate; reflexivity.
  - destruct b; try discriminate; reflexivity.
  - unfold exponent_of in Hka. destruct a; lia.
  - unfold exponent_of in Hkb. destruct b; lia.
Qed.

(** The operators of C, read on the values. *)
Lemma fp_operators_numeric (fmt : fformat) (a b : spec_float) (va vb : Q) :
  has_value fmt a va -> has_value fmt b vb ->
  (fp_lt a b = true <-> (va < vb)%Q) /\
  (fp_eq a b = true <-> (va == vb)%Q) /\
  (fp_gt a b = true <-> (vb < va)%Q) /\
  (fp_le a b = true <-> (va <= vb)%Q) /\
  (fp_ge a b = true <-> (vb <= va)%Q).
Proof.
  intros [Va Ha] [Vb Hb].
  pose proof (SFcompare_numeric fmt a b va vb Va Vb Ha Hb) as Hc.
  unfold fp_lt, fp_eq, fp_gt, fp_le, fp_ge, SFltb, SFeqb, SFleb. rewrite Hc.
  rewrite Qlt_alt, Qeq_alt, Qgt_alt, Qle_alt, Qge_alt.
  destruct (va ?= vb)%Q; repeat split; intros H; try discriminate;
    try reflexivity; try congruence.
Qed.

(** ** The comparison entry points *)

(** C1, as the claim states it, fails on a NaN operand: NaN compares
    unequal to itself, so the equality test of NaN with itself answers 1. *)
Lemma eqtf2_nan_self_nonzero :
  __eqtf2 S754_nan S754_nan = 1 /\ ~ (forall a : fp128, __eqtf2 a a = 0).
Proof.
  split; [reflexivity|]. intros H. specialize (H S754_nan). discriminate H.
Qed.

(** C1 (amended): [__eqtf2 a a] is 0 for every operand [a] that is not
    NaN and 1 for NaN; [__eqtf2 a b] is 1 whenever the native test
    [a == b] is false (different numbers, or an unordered pair), and it
    is 0 exactly when the operands are one and the same non-NaN datum or
    are two zeros (of any sign).  On finite operands it is 0 when the
    values are equal and 1 when they differ. *)
Theorem eqtf2_zero_iff_equal (a b : fp128) :
  (is_nan a = false -> __eqtf2 a a = 0) /\
  (is_nan a = true -> __eqtf2 a a = 1) /\
  (fp_eq a b = false -> __eqtf2 a b = 1) /\
  (__eqtf2 a b = 0 <->
     (a = b /\ is_nan a = false) \/ (is_zero a = true /\ is_zero b = true)) /\
  (forall (fmt : fformat) (va vb : Q),
     has_value fmt a va -> has_value fmt b vb ->
     ((va == vb)%Q -> __eqtf2 a b = 0) /\
     (~ (va == vb)%Q -> __eqtf2 a b = 1)).
Proof.
  split; [|split; [|split; [|split; [split|]]]].
  - intros H. unfold __eqtf2, fp_eq, SFeqb. now rewrite SFcompare_refl.
  - destruct a; cbn; intros H; try discriminate; reflexivity.
  - intros H. unfold __eqtf2. now rewrite H.
  - unfold __eqtf2, fp_eq, SFeqb.
    destruct (SFcompare a b) as [[ | | ]|] eqn:Hc; cbn; try discriminate.
    intros _. now apply SFcompare_Eq_inv.
  - intros [[<- Hn]|[Ha Hb]].
    + unfold __eqtf2, fp_eq, SFeqb. now rewrite SFcompare_refl.
    + destruct a, b; try discriminate; reflexivity.
  - intros fmt va vb Ha Hb.
    destruct (fp_operators_numeric fmt a b va vb Ha Hb) as (_ & He & _).
    unfold __eqtf2. destruct (fp_eq a b); split; intros H; try reflexivity.
    + exfalso. apply H. now apply He.
    + apply He in H. discriminate.
Qed.

Lemma eqtf2_zero_iff_equal_witness :
  __eqtf2 d_one d_one = 0 /\ __eqtf2 S754_nan S754_nan = 1 /\
  __eqtf2 d_one d_two = 1 /\
  __eqtf2 (S754_zero false) (S754_zero true) = 0 /\
  __eqtf2 d_two d_2_9 = 1.
Proof.
  split; [|split; [|split; [|split]]].
  - exact (proj1 (eqtf2_zero_iff_equal d_one d_one) eq_refl).
  - exact (proj1 (proj2 (eqtf2_zero_iff_equal S754_nan S754_nan)) eq_refl).
  - exact (proj1 (proj2 (proj2 (eqtf2_zero_iff_equal d_one d_two))) eq_refl).
  - apply (proj1 (proj2 (proj2 (proj2 (eqtf2_zero_iff_equal (S754_zero false)
                                         (S754_zero true)))))).
    right. split; reflexivity.
  - refine (proj2 (proj2 (proj2 (proj2 (proj2 (eqtf2_zero_iff_equal d_two d_2_9))))
                     binary64 _ _ _ _) _).
    + split; reflexivity.
    + split; reflexivity.
    + vm_compute. discriminate.
Defined.

(** C2: [__lttf2 a b] is -1 when [a < b], 0 when [a == b] and 1 in every
    other case; the last case covers [a > b] and unordered operands
    (either one NaN) alike.  On finite operands the three cases are the
    three orders of the values. *)
Theorem lttf2_three_way (a b : fp128) :
  (fp_lt a b = true -> __lttf2 a b = -1) /\
  (fp_eq a b = true -> __lttf2 a b = 0) /\
  (fp_lt a b = false -> fp_eq a b = false -> __lttf2 a b = 1) /\
  (fp_gt a b = true -> __lttf2 a b = 1) /\
  (is_nan a || is_nan b = true -> __lttf2 a b = 1) /\
  (forall (fmt : fformat) (va vb : Q),
     has_value fmt a va -> has_value fmt b vb ->
     ((va < vb)%Q -> __lttf2 a b = -1) /\
     ((va == vb)%Q -> __lttf2 a b = 0) /\
     ((vb < va)%Q -> __lttf2 a b = 1)).
Proof.
  assert (Hlt : fp_lt a b = true -> __lttf2 a b = -1)
    by (unfold __lttf2; intros H; by_compare a b).
  assert (Heq : fp_eq a b = true -> __lttf2 a b = 0)
    by (unfold __lttf2; intros H; by_compare a b).
  assert (Hgt : fp_gt a b = true -> __lttf2 a b = 1)
    by (unfold __lttf2; intros H; by_compare a b).
  split; [exact Hlt|]. split; [exact Heq|]. split; [|split; [exact Hgt|split]].
  - unfold __lttf2. intros H1 H2. now rewrite H1, H2.
  - intros H. apply unordered_compare in H.
    unfold __lttf2, fp_lt, fp_eq, SFltb, SFeqb. now rewrite H.
  - intros fmt va vb Ha Hb.
    destruct (fp_operators_numeric fmt a b va vb Ha Hb) as (Nl & Ne & Ng & _).
    split; [|split]; intros H.
    + apply Hlt. now apply Nl.
    + apply Heq. now apply Ne.
    + apply Hgt. now apply Ng.
Qed.

Lemma lttf2_three_way_witness :
  __lttf2 d_one d_two = -1 /\ __lttf2 d_two d_two = 0 /\
  __lttf2 d_two d_one = 1 /\ __lttf2 S754_nan d_one = 1 /\
  __lttf2 d_one S754_nan = 1 /\ __lttf2 d_two d_2_9 = -1.
Proof.
  split; [|split; [|split; [|split; [|split]]]].
  - exact (proj1 (lttf2_three_way d_one d_two) eq_refl).
  - exact (proj1 (proj2 (lttf2_three_way d_two d_two)) eq_refl).
  - exact (proj1 (proj2 (proj2 (proj2 (lttf2_three_way d_two d_one)))) eq_refl).
  - exact (proj1 (proj2 (proj2 (proj2 (proj2 (lttf2_three_way S754_nan d_one)))))
             eq_refl).
  - exact (proj1 (proj2 (proj2 (lttf2_three_way d_one S754_nan))) eq_refl eq_refl).
  - refine (proj1 (proj2 (proj2 (proj2 (proj2 (proj2 (lttf2_three_way d_two d_2_9)))))
                     binary64 _ _ _ _) _).
    + split; reflexivity.
    + split; reflexivity.
    + vm_compute. reflexivity.
Defined.

(** C3: [__getf2 a b] is 0 when [a >= b] and -1 otherwise, so that
    [a < b] and unordered operands both give -1; [__letf2 a b] is 0 when
    [a <= b] and 1 otherwise.  On finite operands the tests are the
    orders of the values. *)
Theorem getf2_letf2_sentinels (a b : fp128) :
  (fp_ge a b = true -> __getf2 a b = 0) /\
  (fp_ge a b = false -> __getf2 a b = -1) /\
  (fp_lt a b = true -> __getf2 a b = -1) /\
  (is_nan a || is_nan b = true -> __getf2 a b = -1) /\
  (fp_le a b = true -> __letf2 a b = 0) /\
  (fp_le a b = false -> __letf2 a b = 1) /\
  (forall (fmt : fformat) (va vb : Q),
     has_value fmt a va -> has_value fmt b vb ->
     ((vb <= va)%Q -> __getf2 a b = 0) /\
     ((va < vb)%Q -> __getf2 a b = -1) /\
     ((va <= vb)%Q -> __letf2 a b = 0) /\
     ((vb < va)%Q -> __letf2 a b = 1)).
Proof.
  assert (Hlt : fp_lt a b = true -> __getf2 a b = -1)
    by (unfold __getf2; intros H; by_compare a b).
  assert (Hgt : fp_gt a b = true -> __letf2 a b = 1)
    by (unfold __letf2; intros H; by_compare a b).
  unfold __getf2, __letf2 in *.
  split; [|split; [|split; [exact Hlt|split; [|split; [|split]]]]].
  - intros H. now rewrite H.
  - intros H. now rewrite H.
  - intros H. apply unordered_compare in H. unfold fp_ge. now rewrite H.
  - intros H. now rewrite H.
  - intros H. now rewrite H.
  - intros fmt va vb Ha Hb.
    destruct (fp_operators_numeric fmt a b va vb Ha Hb)
      as (Nl & _ & Ng & Nle & Nge).
    split; [|split; [|split]]; intros H.
    + apply Nge in H. now rewrite H.
    + apply Hlt. now apply Nl.
    + apply Nle in H. now rewrite H.
    + apply Hgt. now apply Ng.
Qed.

Lemma getf2_letf2_sentinels_witness :
  __getf2 d_two d_one = 0 /\ __getf2 d_one d_one = 0 /\
  __getf2 d_one d_two = -1 /\ __getf2 S754_nan d_one = -1 /\
  __letf2 d_one d_two = 0 /\ __letf2 d_two d_one = 1 /\
  __letf2 d_one S754_nan = 1 /\ __letf2 d_2_9 d_two = 1.
Proof.
  repeat match goal with |- _ /\ _ => split end.
  - exact (proj1 (getf2_letf2_sentinels d_two d_one) eq_refl).
  - exact (proj1 (getf2_letf2_sentinels d_one d_one) eq_refl).
  - exact (proj1 (proj2 (proj2 (getf2_letf2_sentinels d_one d_two))) eq_refl).
  - exact (proj1 (proj2 (proj2 (proj2 (getf2_letf2_sentinels S754_nan d_one))))
             eq_refl).
  - exact (proj1 (proj2 (proj2 (proj2 (proj2 (getf2_letf2_sentinels d_one d_two)))))
             eq_refl).
  - exact (proj1 (proj2 (proj2 (proj2 (proj2 (proj2
             (getf2_letf2_sentinels d_two d_one)))))) eq_refl).
  - exact (proj1 (proj2 (proj2 (proj2 (proj2 (proj2
             (getf2_letf2_sentinels d_one S754_nan)))))) eq_refl).
  - destruct (getf2_letf2_sentinels d_2_9 d_two) as (_ & _ & _ & _ & _ & _ & H).
    refine (proj2 (proj2 (proj2 (H binary64 _ _ _ _))) _).
    + split; reflexivity.
    + split; reflexivity.
    + vm_compute. reflexivity.
Defined.

(** C9: the equality and the inequality test return the same value on
    every pair of operands; the value is 0 or 1, it is 0 exactly when
    [a == b] holds and 1 otherwise, in particular when an operand is
    NaN. *)
Theorem eqtf2_netf2_agree (a b : fp128) :
  __eqtf2 a b = __netf2 a b /\
  (__eqtf2 a b = 0 \/ __eqtf2 a b = 1) /\
  (__eqtf2 a b = 0 <-> fp_eq a b = true) /\
  (__eqtf2 a b = 1 <-> fp_eq a b = false) /\
  (is_nan a || is_nan b = true -> __eqtf2 a b = 1 /\ __netf2 a b = 1).
Proof.
  unfold __eqtf2, __netf2. rewrite fp_ne_negb_eq.
  split; [|split; [|split; [|split]]];
    try (destruct (fp_eq a b); cbn; intuition (auto; discriminate)).
  intros H. apply unordered_compare in H.
  unfold fp_eq, SFeqb. rewrite H. split; reflexivity.
Qed.

Lemma eqtf2_netf2_agree_witness :
  __eqtf2 d_one S754_nan = 1 /\ __netf2 d_one S754_nan = 1.
Proof.
  exact (proj2 (proj2 (proj2 (proj2 (eqtf2_netf2_agree d_one S754_nan)))) eq_refl).
Defined.

(** C10: the two ordered compares are duals under exchange of the
    arguments, NaN operands included: [__lttf2 a b = - __gttf2 b a]. *)
Theorem lttf2_gttf2_dual (a b : fp128) :
  __lttf2 a b = - __gttf2 b a.
Proof.
  unfold __lttf2, __gttf2. rewrite fp_gt_swap, (fp_eq_sym a b).
  destruct (fp_lt a b), (fp_eq a b); reflexivity.
Qed.

(** ** Division *)

(** C4: [__divtf3] is the native division of the format, it is defined
    on every pair of operands, a finite nonzero dividend over a zero
    gives the infinity whose sign is the exclusive or of the operands'
    signs, and zero over zero gives NaN. *)
Theorem divtf3_native_division (ld : fformat) (a b : fp128) :
  __divtf3 ld a b = SFdiv (fprec ld) (femax ld) a b /\
  (is_finite a = true -> is_zero a = false -> is_zero b = true ->
   __divtf3 ld a b = S754_infinity (xorb (sign_of a) (sign_of b))) /\
  (is_zero a = true -> is_zero b = true -> __divtf3 ld a b = S754_nan).
Proof.
  split; [reflexivity|]. split.
  - destruct a as [sa|sa| |sa ma ea], b as [sb|sb| |sb mb eb]; cbn;
      intros Hf Ha Hb; try discriminate; reflexivity.
  - destruct a as [sa|sa| |sa ma ea], b as [sb|sb| |sb mb eb]; cbn;
      intros Ha Hb; try discriminate; reflexivity.
Qed.

(** 1.0 / 2.0 is 0.5, and 1.0 / 2.9 is rounded to the nearest double. *)
Example divtf3_one_by_two :
  __divtf3 binary64 d_one d_two = S754_finite false 4503599627370496 (-53) /\
  __divtf3 binary64 d_one d_2_9 = S754_finite false 6211861554993788 (-54).
Proof. split; vm_compute; reflexivity. Qed.

Lemma divtf3_native_division_witness :
  __divtf3 binary64 d_one (S754_zero true) = S754_infinity true /\
  __divtf3 binary64 (S754_zero false) (S754_zero true) = S754_nan.
Proof.
  split.
  - exact (proj1 (proj2 (divtf3_native_division binary64 d_one (S754_zero true)))
             eq_refl eq_refl eq_refl).
  - exact (proj2 (proj2 (divtf3_native_division binary64 (S754_zero false) (S754_zero true)))
             eq_refl eq_refl).
Defined.

(** ** Rounding to a format: when nothing is lost *)

Section Round.

Variables prec emax : Z.

Lemma shr_fexp_canonical (m : positive) (e : Z) :
  canonical_mantissa prec emax m e = true ->
  shr_fexp prec emax (Zpos m) e loc_Exact
  = (Build_shr_record (Zpos m) false false, e).
Proof.
  unfold canonical_mantissa, shr_fexp. intros H. apply Z.eqb_eq in H.
  cbn [Zdigits2 shr_record_of_loc]. rewrite H, Z.sub_diag. reflexivity.
Qed.

(** A canonical mantissa goes through rounding unchanged. *)
Lemma binary_round_aux_canonical (s : bool) (m : positive) (e : Z) :
  canonical_mantissa prec emax m e = true ->
  binary_round_aux prec emax s (Zpos m) e loc_Exact
  = if e <=? emax - prec then S754_finite s m e else S754_infinity s.
Proof.
  intros H. unfold binary_round_aux.
  rewrite (shr_fexp_canonical m e H).
  cbn [shr_m loc_of_shr_record round_nearest_even].
  rewrite (shr_fexp_canonical m e H). reflexivity.
Qed.

(** A canonical mantissa padded with [k] low zero bits is shifted back
    to itself. *)
Lemma binary_round_aux_scaled (s : bool) (m k : positive) (e : Z) :
  canonical_mantissa prec emax m e = true ->
  binary_round_aux prec emax s (Zpos (Pos.iter xO m k)) (e - Zpos k) loc_Exact
  = if e <=? emax - prec then S754_finite s m e else S754_infinity s.
Proof.
  intros H. unfold binary_round_aux.
  assert (Hs : shr_fexp prec emax (Zpos (Pos.iter xO m k)) (e - Zpos k) loc_Exact
               = (Build_shr_record (Zpos m) false false, e)).
  { unfold shr_fexp. cbn [Zdigits2 shr_record_of_loc].
    rewrite digits2_pos_iter_xO.
    unfold canonical_mantissa in H. apply Z.eqb_eq in H.
    replace (Zpos (digits2_pos m) + Zpos k + (e - Zpos k))
      with (Zpos (digits2_pos m) + e) by lia.
    rewrite H. replace (e - (e - Zpos k)) with (Zpos k) by lia.
    unfold shr. rewrite shr_iter_xO. f_equal. lia. }
  rewrite Hs. cbn [shr_m loc_of_shr_record round_nearest_even].
  rewrite (shr_fexp_canonical m e H). reflexivity.
Qed.

Lemma binary_round_canonical (s : bool) (m : positive) (e : Z) :
  canonical_mantissa prec emax m e = true ->
  binary_round prec emax s m e
  = if e <=? emax - prec then S754_finite s m e else S754_infinity s.
Proof.
  intros H. unfold binary_round.
  pose proof H as H'. unfold canonical_mantissa in H'. apply Z.eqb_eq in H'.
  rewrite H'. unfold shl_align. rewrite Z.sub_diag.
  now apply binary_round_aux_canonical.
Qed.

Lemma binary_round_scaled (s : bool) (m k : positive) (e : Z) :
  canonical_mantissa prec emax m e = true ->
  binary_round prec emax s (Pos.iter xO m k) (e - Zpos k)
  = if e <=? emax - prec then S754_finite s m e else S754_infinity s.
Proof.
  intros H. unfold binary_round.
  pose proof H as H'. unfold canonical_mantissa in H'. apply Z.eqb_eq in H'.
  rewrite digits2_pos_iter_xO.
  replace (Zpos (digits2_pos m) + Zpos k + (e - Zpos k))
    with (Zpos (digits2_pos m) + e) by lia.
  rewrite H'. unfold shl_align.
  replace (e - (e - Zpos k)) with (Zpos k) by lia.
  now apply binary_round_aux_scaled.
Qed.

(** When the format has room for every bit of the mantissa, rounding
    pads the mantissa with low zero bits down to the canonical
    exponent and loses nothing. *)
Lemma binary_round_exact (s : bool) (m : positive) (e : Z) :
  fexp prec emax (Zpos (digits2_pos m) + e) <= e ->
  Zpos (digits2_pos m) + e <= emax ->
  3 - emax <= emax ->
  let e' := fexp prec emax (Zpos (digits2_pos m) + e) in
  binary_round prec emax s m e
  = S754_finite s
      (match (e - e')%Z with Zpos k => Pos.iter xO m k | _ => m end) e'.
Proof.
  intros Hle Hd Hfmt e'. unfold binary_round, shl_align. fold e'.
  assert (He' : e' <= emax - prec) by (unfold e', fexp, emin in *; lia).
  apply Z.leb_le in He'.
  destruct (e' - e) as [|k|k] eqn:Hk.
  - assert (Heq : e' = e) by lia. replace (e - e') with 0 by lia.
    rewrite binary_round_aux_canonical.
    + rewrite <- Heq. now rewrite He'.
    + unfold canonical_mantissa. apply Z.eqb_eq. fold e'. lia.
  - lia.
  - replace (e - e') with (Zpos k) by lia.
    rewrite binary_round_aux_canonical.
    + now rewrite He'.
    + unfold canonical_mantissa. apply Z.eqb_eq.
      rewrite digits2_pos_iter_xO.
      replace (Zpos (digits2_pos m) + Zpos k + e')
        with (Zpos (digits2_pos m) + e) by lia.
      reflexivity.
Qed.

End Round.

(** ** Conversions between floating formats *)

(** Widening a valid datum of a format to a format at least as wide and
    narrowing it back returns the datum. *)
Lemma fconv_widen_narrow (small big : fformat) (f : spec_float) :
  wider_than small big ->
  1 < femax small ->
  valid_in small f = true ->
  fconv small (fconv big f) = f.
Proof.
  intros [Hp He] Hs Hv.
  destruct f as [s|s| |s m e]; try reflexivity.
  unfold valid_in in Hv. cbn in Hv.
  apply andb_prop in Hv. destruct Hv as [Hc Hb].
  pose proof Hc as Hc'. unfold canonical_mantissa, fexp, emin in Hc'.
  apply Z.eqb_eq in Hc'.
  assert (Hb' : e <= femax small - fprec small) by now apply Z.leb_le.
  unfold fconv at 2.
  rewrite binary_round_exact; unfold fexp, emin; try lia.
  unfold fconv. set (e' := Z.max _ _).
  destruct (e - e') as [|k|k] eqn:Hk.
  - assert (e' = e) as -> by lia.
    rewrite binary_round_canonical by assumption. now rewrite Hb.
  - replace e' with (e - Zpos k) by lia.
    rewrite binary_round_scaled by assumption. now rewrite Hb.
  - unfold e' in Hk. lia.
Qed.

Lemma q_one_ulp_lossy (ld : fformat) :
  ld = binary64 \/ ld = x87_extended ->
  valid_in ld (q_one_ulp ld) = true /\
  __extendsftf2 ld (__trunctfsf2 (q_one_ulp ld)) <> q_one_ulp ld.
Proof.
  intros [-> | ->]; (split; [vm_compute; reflexivity | vm_compute; discriminate]).
Qed.

(** C5: for every datum [f] of the 32-bit float format, narrowing the
    widened value gives [f] back, whatever the width of [long double]
    (at least that of [float]); for a non-NaN [f] the two also compare
    equal under [==].  The opposite round trip loses bits: on either of
    the two [long double] formats the least value above 1 does not come
    back. *)
Theorem narrow_widen_roundtrip (ld : fformat) (f : spec_float) :
  wider_than binary32 ld ->
  valid_in binary32 f = true ->
  __trunctfsf2 (__extendsftf2 ld f) = f /\
  (is_nan f = false -> fp_eq (__trunctfsf2 (__extendsftf2 ld f)) f = true) /\
  (ld = binary64 \/ ld = x87_extended ->
   exists q : fp128,
     valid_in ld q = true /\ __extendsftf2 ld (__trunctfsf2 q) <> q).
Proof.
  intros Hw Hv.
  assert (Hrt : __trunctfsf2 (__extendsftf2 ld f) = f).
  { unfold __trunctfsf2, __extendsftf2.
    apply fconv_widen_narrow; [assumption|cbn; lia|assumption]. }
  split; [exact Hrt|]. split.
  - intros Hn. rewrite Hrt. unfold fp_eq, SFeqb. now rewrite SFcompare_refl.
  - intros Hld. exists (q_one_ulp ld). now apply q_one_ulp_lossy.
Qed.

Lemma narrow_widen_roundtrip_witness :
  __trunctfsf2 (__extendsftf2 binary64 f_2_9) = f_2_9 /\
  __trunctfsf2 (__extendsftf2 x87_extended f_2_9) = f_2_9.
Proof.
  split.
  - refine (proj1 (narrow_widen_roundtrip binary64 f_2_9 _ _)).
    + split; cbn; lia.
    + reflexivity.
  - refine (proj1 (narrow_widen_roundtrip x87_extended f_2_9 _ _)).
    + split; cbn; lia.
    + reflexivity.
Defined.

(** ** Conversion from an integer *)

(** An integer that fits the significand converts to a datum of the same
    value. *)
Lemma fp_of_Z_exact (fmt : fformat) (a : Z) :
  1 < fprec fmt -> fprec fmt <= femax fmt ->
  0 <= a < 2 ^ fprec fmt ->
  represents (fp_of_Z fmt a) a.
Proof.
  intros Hp He [Ha0 Ha]. unfold fp_of_Z, binary_normalize, represents.
  destruct a as [|m|m]; [cbn; reflexivity| |lia].
  pose proof (digits2_pos_le m _ Ha) as Hd.
  rewrite binary_round_exact; unfold fexp, emin; try lia.
  set (e' := Z.max _ _).
  assert (He' : e' <= 0) by (unfold e'; lia).
  cbn [SF2Q cond_Zopp].
  destruct (0 - e') as [|k|k] eqn:Hk; try lia.
  - replace e' with 0 by lia. cbn. unfold Qeq. cbn. lia.
  - replace e' with (Zneg k) by lia. cbn [pow2Q].
    unfold Qeq. cbn [Qnum Qden Qmult inject_Z].
    rewrite iter_xO_pow2, Pos2Z.inj_mul, Pos2Z.inj_pow. lia.
Qed.

(** C7, as the claim states it, fails where [long double] is the 64-bit
    double (ARM64): 2^53 + 1 needs 54 significand bits and is rounded to
    2^53. *)
Lemma floatuntitf_binary64_rounds :
  0 <= 9007199254740993 <= UINT64_MAX /\
  __floatuntitf binary64 9007199254740993 = S754_finite false 4503599627370496 1 /\
  represents (__floatuntitf binary64 9007199254740993) 9007199254740992 /\
  ~ represents (__floatuntitf binary64 9007199254740993) 9007199254740993.
Proof.
  split; [unfold UINT64_MAX; lia|].
  split; [vm_compute; reflexivity|].
  split; [vm_compute; reflexivity|].
  vm_compute. discriminate.
Qed.

(** C7 (amended): for an unsigned 64-bit integer [a] below [2^p], [p] the
    number of significand bits of [long double], [__floatuntitf a] is
    numerically equal to [a]; with [p >= 64] (the 80-bit format of x86)
    this is the whole unsigned 64-bit range. *)
Theorem floatuntitf_exact_up_to_precision (ld : fformat) (a : Z) :
  1 < fprec ld -> fprec ld <= femax ld ->
  0 <= a <= UINT64_MAX ->
  (a < 2 ^ fprec ld -> represents (__floatuntitf ld a) a) /\
  (64 <= fprec ld -> represents (__floatuntitf ld a) a).
Proof.
  intros Hp He Ha. unfold __floatuntitf. split.
  - intros Hlt. apply fp_of_Z_exact; lia.
  - intros H64. apply fp_of_Z_exact; try lia.
    assert (2 ^ 64 <= 2 ^ fprec ld) by (apply Z.pow_le_mono_r; lia).
    unfold UINT64_MAX in Ha. lia.
Qed.

Lemma floatuntitf_exact_up_to_precision_witness :
  represents (__floatuntitf binary64 9007199254740991) 9007199254740991 /\
  represents (__floatuntitf x87_extended 18446744073709551615) 18446744073709551615.
Proof.
  split.
  - refine (proj1 (floatuntitf_exact_up_to_precision binary64 9007199254740991 _ _ _) _);
      cbn; unfold UINT64_MAX; lia.
  - refine (proj2 (floatuntitf_exact_up_to_precision x87_extended
                     18446744073709551615 _ _ _) _);
      cbn; unfold UINT64_MAX; lia.
Defined.

(** ** Conversions to 32-bit integers *)

Ltac q_to_z :=
  unfold truncates_toward_zero, Qabs, Qle, Qlt, Qmult, Qplus, inject_Z, cond_Zopp;
  cbn [Qnum Qden];
  rewrite ?Pos.mul_1_r, ?Pos.mul_1_l, ?Z.mul_1_r, ?Z.mul_1_l,
          ?Pos2Z.inj_mul, ?Pos2Z.inj_pow.

(** Dropping the low bits of the mantissa truncates the value toward
    zero. *)
Lemma integral_part_truncates (a : spec_float) (v : Q) :
  SF2Q a = Some v ->
  exists z, integral_part a = Some z /\ truncates_toward_zero z v.
Proof.
  destruct a as [s|s| |s m e]; cbn [SF2Q integral_part]; intros H;
    try discriminate; injection H as <-.
  - exists 0. split; [reflexivity|]. q_to_z. lia.
  - eexists. split; [reflexivity|].
    destruct e as [|p|p]; cbn [pow2Q].
    + rewrite Z.shiftl_0_r. destruct s; q_to_z; lia.
    + rewrite Z.shiftl_mul_pow2 by lia. rewrite Z.pow_pos_fold.
      assert (HK : 0 < 2 ^ Zpos p) by (apply Z.pow_pos_nonneg; lia).
      destruct s; q_to_z; set (K := 2 ^ Zpos p) in *; nia.
    + rewrite Z.shiftr_div_pow2 by lia.
      assert (HK : 0 < 2 ^ Zpos p) by (apply Z.pow_pos_nonneg; lia).
      pose proof (Z.div_mod (Zpos m) (2 ^ Zpos p) ltac:(lia)) as Hdm.
      pose proof (Z.mod_pos_bound (Zpos m) (2 ^ Zpos p) HK) as Hmb.
      assert (Hq : 0 <= Zpos m / 2 ^ Zpos p) by (apply Z.div_pos; lia).
      destruct s; q_to_z; set (K := 2 ^ Zpos p) in *;
        set (N := Zpos m / K) in *; set (R := Zpos m mod K) in *; nia.
Qed.

Lemma truncation_in_range (lo hi z : Z) (v : Q) :
  lo <= 0 <= hi ->
  truncates_toward_zero z v ->
  (inject_Z (lo - 1) < v)%Q -> (v < inject_Z (hi + 1))%Q ->
  lo <= z <= hi.
Proof.
  intros Hlh (H1 & H2 & H3). destruct v as [n d].
  revert H1 H2 H3. q_to_z. intros H1 H2 H3 H4 H5.
  set (D := Zpos d) in *. assert (0 < D) by (unfold D; lia).
  destruct (Z.abs_spec z) as [[? Hz]|[? Hz]],
           (Z.abs_spec n) as [[? Hn]|[? Hn]];
    rewrite Hz, Hn in *; nia.
Qed.

Lemma truncation_unique (z z' : Z) (v : Q) :
  truncates_toward_zero z v -> truncates_toward_zero z' v -> z = z'.
Proof.
  intros (H1 & H2 & H3) (H1' & H2' & H3'). destruct v as [n d].
  revert H1 H2 H3 H1' H2' H3'. q_to_z. intros.
  set (D := Zpos d) in *. assert (0 < D) by (unfold D; lia).
  destruct (Z.abs_spec z) as [[? Hz]|[? Hz]],
           (Z.abs_spec n) as [[? Hn]|[? Hn]],
           (Z.abs_spec z') as [[? Hz']|[? Hz']];
    rewrite Hz, Hn, Hz' in *; nia.
Qed.

(** 2.9 as a [long double] of the 64-bit format is the double nearest to
    2.9. *)
Lemma q_2_9_binary64 : q_2_9 binary64 = d_2_9.
Proof. vm_compute. reflexivity. Qed.

(** C6: for a finite operand of value [v] whose integral part fits the
    destination, [__fixtfsi] and [__fixunstfsi] return [v] truncated
    toward zero, as a signed and as an unsigned 32-bit integer; every
    operand in [2, 3), such as 2.9, gives 2 under both. *)
Theorem fix_truncates_toward_zero (a : fp128) (v : Q) :
  SF2Q a = Some v ->
  ((inject_Z (INT_MIN - 1) < v)%Q -> (v < inject_Z (INT_MAX + 1))%Q ->
   exists z, __fixtfsi a = Some z /\ INT_MIN <= z <= INT_MAX /\
             truncates_toward_zero z v) /\
  ((inject_Z (0 - 1) < v)%Q -> (v < inject_Z (UINT_MAX + 1))%Q ->
   exists z, __fixunstfsi a = Some z /\ 0 <= z <= UINT_MAX /\
             truncates_toward_zero z v) /\
  ((2 <= v)%Q -> (v < 3)%Q ->
   __fixtfsi a = Some 2 /\ __fixunstfsi a = Some 2).
Proof.
  intros Hv. destruct (integral_part_truncates a v Hv) as (z & Hz & Ht).
  assert (Hcast : forall lo hi, lo <= 0 <= hi ->
            (inject_Z (lo - 1) < v)%Q -> (v < inject_Z (hi + 1))%Q ->
            cast_to_integer lo hi a = Some z /\ lo <= z <= hi).
  { intros lo hi Hlh Hlo Hhi.
    pose proof (truncation_in_range lo hi z v Hlh Ht Hlo Hhi) as Hr.
    unfold cast_to_integer. rewrite Hz.
    destruct (Z.leb_spec lo z), (Z.leb_spec z hi); try lia. now cbn. }
  split; [|split].
  - intros Hlo Hhi. exists z.
    destruct (Hcast INT_MIN INT_MAX) as [Hc Hr]; try assumption.
    { unfold INT_MIN, INT_MAX. lia. }
    split; [exact Hc | split; [exact Hr | exact Ht]].
  - intros Hlo Hhi. exists z.
    destruct (Hcast 0 UINT_MAX) as [Hc Hr]; try assumption.
    { unfold UINT_MAX. lia. }
    split; [exact Hc | split; [exact Hr | exact Ht]].
  - intros H2 H3.
    assert (z = 2) as ->.
    { apply (truncation_unique z 2 v Ht).
      destruct v as [n d]. revert H2 H3. q_to_z. intros. nia. }
    unfold __fixtfsi, __fixunstfsi, cast_to_integer. rewrite Hz.
    split; reflexivity.
Qed.

Lemma fix_truncates_toward_zero_witness :
  (__fixtfsi (q_2_9 binary64) = Some 2 /\ __fixunstfsi (q_2_9 binary64) = Some 2) /\
  (__fixtfsi (q_2_9 x87_extended) = Some 2 /\
   __fixunstfsi (q_2_9 x87_extended) = Some 2).
Proof.
  split.
  - refine (proj2 (proj2 (fix_truncates_toward_zero (q_2_9 binary64) _ _)) _ _).
    + vm_compute. reflexivity.
    + vm_compute. discriminate.
    + vm_compute. reflexivity.
  - refine (proj2 (proj2 (fix_truncates_toward_zero (q_2_9 x87_extended) _ _)) _ _).
    + vm_compute. reflexivity.
    + vm_compute. discriminate.
    + vm_compute. reflexivity.
Defined.


(** * Further properties of the entry points *)

(** ** Comparisons: the remaining entry point and how the six relate *)

(** X1: [__gttf2 a b] is 1 when [a > b], 0 when [a == b] and -1 when
    [a < b] or an operand is NaN; on finite operands the three cases are
    the three orders of the values. *)
Theorem gttf2_three_way (a b : fp128) :
  (fp_gt a b = true -> __gttf2 a b = 1) /\
  (fp_eq a b = true -> __gttf2 a b = 0) /\
  (fp_lt a b = true -> __gttf2 a b = -1) /\
  (is_nan a || is_nan b = true -> __gttf2 a b = -1) /\
  (forall (fmt : fformat) (va vb : Q),
     has_value fmt a va -> has_value fmt b vb ->
     ((vb < va)%Q -> __gttf2 a b = 1) /\
     ((va == vb)%Q -> __gttf2 a b = 0) /\
     ((va < vb)%Q -> __gttf2 a b = -1)).
Proof.
  assert (Hgt : fp_gt a b = true -> __gttf2 a b = 1)
    by (unfold __gttf2; intros H; by_compare a b).
  assert (Heq : fp_eq a b = true -> __gttf2 a b = 0)
    by (unfold __gttf2; intros H; by_compare a b).
  assert (Hlt : fp_lt a b = true -> __gttf2 a b = -1)
    by (unfold __gttf2; intros H; by_compare a b).
  split; [exact Hgt|]. split; [exact Heq|]. split; [exact Hlt|]. split.
  - intros H. apply unordered_compare in H.
    unfold __gttf2, fp_gt, fp_eq, SFeqb. now rewrite H.
  - intros fmt va vb Ha Hb.
    destruct (fp_operators_numeric fmt a b va vb Ha Hb) as (Nl & Ne & Ng & _).
    split; [|split]; intros H.
    + apply Hgt. now apply Ng.
    + apply Heq. now apply Ne.
    + apply Hlt. now apply Nl.
Qed.

Lemma gttf2_three_way_witness :
  __gttf2 d_two d_one = 1 /\ __gttf2 d_one S754_nan = -1 /\
  __gttf2 d_two d_2_9 = -1.
Proof.
  split; [|split].
  - exact (proj1 (gttf2_three_way d_two d_one) eq_refl).
  - destruct (gttf2_three_way d_one S754_nan) as (_ & _ & _ & H & _).
    exact (H eq_refl).
  - destruct (gttf2_three_way d_two d_2_9) as (_ & _ & _ & _ & H).
    refine (proj2 (proj2 (H binary64 _ _ _ _)) _).
    + split; reflexivity.
    + split; reflexivity.
    + vm_compute. reflexivity.
Defined.

(** X2: tested against zero the way a caller of the soft-float interface
    does, each entry point decides the native relation of its name:
    [__lttf2 < 0] is [a < b], [__gttf2 > 0] is [a > b], [__letf2 <= 0] is
    [a <= b], [__getf2 >= 0] is [a >= b], [__eqtf2 == 0] is [a == b] and
    [__netf2 != 0] is [a != b]. *)
Theorem comparison_sign_tests (a b : fp128) :
  (__lttf2 a b < 0 <-> fp_lt a b = true) /\
  (__gttf2 a b > 0 <-> fp_gt a b = true) /\
  (__letf2 a b <= 0 <-> fp_le a b = true) /\
  (__getf2 a b >= 0 <-> fp_ge a b = true) /\
  (__eqtf2 a b = 0 <-> fp_eq a b = true) /\
  (__netf2 a b <> 0 <-> fp_ne a b = true).
Proof.
  unfold __lttf2, __gttf2, __letf2, __getf2, __eqtf2, __netf2,
    fp_lt, fp_gt, fp_le, fp_ge, fp_eq, fp_ne, SFltb, SFleb, SFeqb,
    lnot, int_of_bool.
  destruct (SFcompare a b) as [[ | | ]|]; repeat split; intros H;
    try reflexivity; try discriminate; try lia; try congruence.
Qed.

Lemma comparison_sign_tests_witness :
  __lttf2 d_one d_two < 0 /\ ~ __getf2 d_one S754_nan >= 0.
Proof.
  split.
  - exact (proj2 (proj1 (comparison_sign_tests d_one d_two)) eq_refl).
  - intros H.
    destruct (comparison_sign_tests d_one S754_nan) as (_ & _ & _ & [G _] & _).
    discriminate (G H).
Defined.

(** X3: [__lttf2] and [__gttf2] return the same value exactly on ordered
    operands; they differ (1 against -1) when an operand is NaN. *)
Theorem lttf2_gttf2_agree_iff_ordered (a b : fp128) :
  __lttf2 a b = __gttf2 a b <-> is_nan a || is_nan b = false.
Proof.
  rewrite <- not_true_iff_false, unordered_compare.
  unfold __lttf2, __gttf2, fp_lt, fp_gt, fp_eq, SFltb, SFeqb.
  destruct (SFcompare a b) as [[ | | ]|]; split; intros H;
    try reflexivity; try discriminate; try congruence.
Qed.

Lemma lttf2_gttf2_agree_iff_ordered_witness :
  __lttf2 d_two d_2_9 = __gttf2 d_two d_2_9 /\
  __lttf2 d_two S754_nan <> __gttf2 d_two S754_nan.
Proof.
  split.
  - exact (proj2 (lttf2_gttf2_agree_iff_ordered d_two d_2_9) eq_refl).
  - intros H.
    discriminate (proj1 (lttf2_gttf2_agree_iff_ordered d_two S754_nan) H).
Defined.

(** X4: [__letf2] and [__getf2] are duals under exchange of the
    arguments, NaN operands included: [__letf2 a b = - __getf2 b a]. *)
Theorem getf2_letf2_dual (a b : fp128) :
  __letf2 a b = - __getf2 b a.
Proof.
  unfold __letf2, __getf2. rewrite fp_ge_swap.
  destruct (fp_le a b); reflexivity.
Qed.

(** X5: the equality and the inequality test do not depend on the order
    of their arguments. *)
Theorem eqtf2_netf2_symmetric (a b : fp128) :
  __eqtf2 a b = __eqtf2 b a /\ __netf2 a b = __netf2 b a.
Proof.
  unfold __eqtf2, __netf2. rewrite !fp_ne_negb_eq, (fp_eq_sym a b).
  split; reflexivity.
Qed.

(** X6: the six entry points answer consistently on one pair of
    operands: equality is reported by [__eqtf2], [__lttf2] and [__gttf2]
    together, [__letf2] reports "less or equal" exactly when [__lttf2]
    reports less or [__eqtf2] equal, and likewise [__getf2]. *)
Theorem comparisons_consistent (a b : fp128) :
  (__eqtf2 a b = 0 <-> __lttf2 a b = 0) /\
  (__eqtf2 a b = 0 <-> __gttf2 a b = 0) /\
  (__letf2 a b = 0 <-> __lttf2 a b <= 0) /\
  (__getf2 a b = 0 <-> 0 <= __gttf2 a b) /\
  (__letf2 a b = 0 <-> __lttf2 a b = -1 \/ __eqtf2 a b = 0) /\
  (__getf2 a b = 0 <-> __gttf2 a b = 1 \/ __eqtf2 a b = 0).
Proof.
  unfold __lttf2, __gttf2, __letf2, __getf2, __eqtf2,
    fp_lt, fp_gt, fp_le, fp_ge, fp_eq, SFltb, SFleb, SFeqb, lnot.
  destruct (SFcompare a b) as [[ | | ]|]; repeat split; intros H;
    try reflexivity; try discriminate; try lia; auto;
    try (destruct H; discriminate).
Qed.

Lemma comparisons_consistent_witness :
  __letf2 d_two d_2_9 = 0 /\ __getf2 d_2_9 d_two = 0.
Proof.
  split.
  - destruct (comparisons_consistent d_two d_2_9) as (_ & _ & [_ H] & _).
    apply H. vm_compute. discriminate.
  - destruct (comparisons_consistent d_2_9 d_two) as (_ & _ & _ & [_ H] & _).
    apply H. vm_compute. discriminate.
Defined.

(** The four-way compare composes: from [a ? b] and [b ? c], neither of
    them [Gt], follows [a ? c]. *)
Lemma SFcompare_trans (a b c : spec_float) (o1 o2 : comparison) :
  SFcompare a b = Some o1 -> SFcompare b c = Some o2 ->
  o1 <> Gt -> o2 <> Gt ->
  SFcompare a c = Some (le_then o1 o2).
Proof.
  destruct a as [sa|sa| |sa ma ea], b as [sb|sb| |sb mb eb],
           c as [sc|sc| |sc mc ec];
    cbn [SFcompare]; intros H1 H2 N1 N2; try discriminate;
    injection H1 as <-; injection H2 as <-;
    try (destruct sa); try (destruct sb); try (destruct sc);
    cbn in *; try congruence; try reflexivity.
  all: try (match goal with
            | |- Some Lt = Some (le_then ?x Lt) =>
                set (y := x) in *; clearbody y; destruct y; cbn; congruence
            | |- Some Lt = Some (le_then Lt ?x) =>
                set (y := x) in *; clearbody y; destruct y; cbn; congruence
            end).
  all: rewrite ?Pos.compare_cont_spec in *; cbn [Pos.switch_Eq] in *.
  all: destruct (Z.compare_spec ea eb), (Z.compare_spec eb ec),
         (Z.compare_spec ea ec); try lia; cbn in *; try congruence;
       destruct (Pos.compare_spec ma mb), (Pos.compare_spec mb mc),
         (Pos.compare_spec ma mc); try lia; cbn in *; try congruence.
Qed.

(** X7: the ordered compares are transitive on all operands (infinities
    and zeros of either sign included; a NaN never satisfies a premise):
    "less" and "less or equal" chain, in every mix, and so does
    "equal". *)
Theorem ordered_compares_transitive (a b c : fp128) :
  (__lttf2 a b = -1 -> __lttf2 b c = -1 -> __lttf2 a c = -1) /\
  (__letf2 a b = 0 -> __letf2 b c = 0 -> __letf2 a c = 0) /\
  (__letf2 a b = 0 -> __lttf2 b c = -1 -> __lttf2 a c = -1) /\
  (__lttf2 a b = -1 -> __letf2 b c = 0 -> __lttf2 a c = -1) /\
  (__eqtf2 a b = 0 -> __eqtf2 b c = 0 -> __eqtf2 a c = 0).
Proof.
  unfold __lttf2, __letf2, __eqtf2, fp_lt, fp_le, fp_eq, SFltb, SFleb, SFeqb, lnot.
  destruct (SFcompare a b) as [o1|] eqn:H1; [|repeat split; intros; discriminate].
  destruct (SFcompare b c) as [o2|] eqn:H2;
    [|repeat split; intros; destruct o1; discriminate].
  repeat split; intros Ha Hb;
    (assert (N1 : o1 <> Gt) by (destruct o1; congruence));
    (assert (N2 : o2 <> Gt) by (destruct o2; congruence));
    rewrite (SFcompare_trans a b c o1 o2 H1 H2 N1 N2);
    destruct o1, o2; cbn in *; congruence.
Qed.

Lemma ordered_compares_transitive_witness :
  __lttf2 d_one d_2_9 = -1 /\ __letf2 (S754_infinity true) d_2_9 = 0.
Proof.
  split.
  - exact (proj1 (ordered_compares_transitive d_one d_two d_2_9) eq_refl eq_refl).
  - destruct (ordered_compares_transitive (S754_infinity true) d_one d_2_9)
      as (_ & H & _).
    exact (H eq_refl eq_refl).
Defined.

(** ** Multiplication and division: NaN, sign, exact cases *)

Lemma iter_pos_invariant {A : Type} (P : A -> Prop) (f : A -> A) :
  (forall x, P x -> P (f x)) ->
  forall (n : positive) (x : A), P x -> P (iter_pos f n x).
Proof.
  intros Hf. induction n as [n IH|n IH|]; intros x Hx; cbn; auto.
Qed.

Lemma shr_1_nonneg (mrs : shr_record) :
  0 <= shr_m mrs -> 0 <= shr_m (shr_1 mrs).
Proof.
  destruct mrs as [m r s]. cbn [shr_m]. intros H.
  destruct m as [|[p|p|]|p]; cbn; lia.
Qed.

Section RoundSign.

Variables prec emax : Z.

Lemma shr_fexp_nonneg (m e : Z) (l : location) :
  0 <= m -> 0 <= shr_m (fst (shr_fexp prec emax m e l)).
Proof.
  intros Hm. unfold shr_fexp, shr.
  assert (H0 : 0 <= shr_m (shr_record_of_loc m l))
    by (destruct l as [|[ | | ]]; exact Hm).
  destruct (fexp prec emax (Zdigits2 m + e) - e) as [|p|p]; cbn [fst];
    try exact H0.
  now apply (iter_pos_invariant (fun r => 0 <= shr_m r) shr_1 shr_1_nonneg).
Qed.

Lemma round_nearest_even_nonneg (m : Z) (l : location) :
  0 <= m -> 0 <= round_nearest_even m l.
Proof.
  intros Hm. destruct l as [|[ | | ]]; cbn; try lia.
  destruct (Z.even m); lia.
Qed.

(** Rounding a nonnegative magnitude gives a zero, a finite datum or an
    infinity, of the sign asked for. *)
Lemma binary_round_aux_signed (s : bool) (m e : Z) (l : location) :
  0 <= m ->
  is_nan (binary_round_aux prec emax s m e l) = false /\
  sign_of (binary_round_aux prec emax s m e l) = s.
Proof.
  intros Hm. unfold binary_round_aux.
  pose proof (shr_fexp_nonneg m e l Hm) as H1.
  destruct (shr_fexp prec emax m e l) as [mrs' e'] eqn:E1. cbn [fst] in H1.
  pose proof (shr_fexp_nonneg _ e' loc_Exact
                (round_nearest_even_nonneg (shr_m mrs')
                   (loc_of_shr_record mrs') H1)) as H2.
  destruct (shr_fexp prec emax _ e' loc_Exact) as [mrs'' e''] eqn:E2.
  cbn [fst] in H2.
  destruct (shr_m mrs'') as [|p|p]; [split; reflexivity| |lia].
  destruct (e'' <=? emax - prec); split; reflexivity.
Qed.

Lemma binary_round_signed (s : bool) (m : positive) (e : Z) :
  is_nan (binary_round prec emax s m e) = false /\
  sign_of (binary_round prec emax s m e) = s.
Proof.
  unfold binary_round. destruct (shl_align _ _ _) as [mz ez].
  apply binary_round_aux_signed. lia.
Qed.

(** The quotient of the mantissas is not negative. *)
Lemma SFdiv_core_nonneg (m1 m2 : positive) (e1 e2 : Z) :
  0 <= fst (fst (SFdiv_core_binary prec emax (Zpos m1) e1 (Zpos m2) e2)).
Proof.
  unfold SFdiv_core_binary.
  set (s := _ - _ - _).
  set (m' := match s with
             | Zpos _ => Z.shiftl (Zpos m1) s
             | 0 => Zpos m1
             | Zneg _ => 0
             end).
  assert (Hm' : 0 <= m').
  { unfold m'. destruct s; try lia. apply Z.shiftl_nonneg. lia. }
  pose proof (Z.div_eucl_eq m' (Zpos m2) ltac:(lia)) as Heq.
  pose proof (Z.mod_pos_bound m' (Zpos m2) ltac:(lia)) as Hb.
  unfold Z.modulo in Hb.
  destruct (Z.div_eucl m' (Zpos m2)) as [q r]. cbn [fst snd] in *. nia.
Qed.

Lemma SFmul_comm (x y : spec_float) :
  SFmul prec emax x y = SFmul prec emax y x.
Proof.
  destruct x as [sx|sx| |sx mx ex], y as [sy|sy| |sy my ey]; cbn [SFmul];
    rewrite ?(xorb_comm sx sy); try reflexivity.
  now rewrite (Pos.mul_comm mx my), (Z.add_comm ex ey).
Qed.

End RoundSign.

(** X8: the product does not depend on the order of the factors. *)
Theorem multf3_commutative (ld : fformat) (a b : fp128) :
  __multf3 ld a b = __multf3 ld b a.
Proof. unfold __multf3. apply SFmul_comm. Qed.

(** X9: [__multf3] returns NaN exactly when an operand is NaN or the
    operands are an infinity and a zero; a product of finite operands is
    never NaN, whatever its size. *)
Theorem multf3_nan_iff (ld : fformat) (a b : fp128) :
  is_nan (__multf3 ld a b) = true <->
  is_nan a = true \/ is_nan b = true \/
  (is_infinite a = true /\ is_zero b = true) \/
  (is_zero a = true /\ is_infinite b = true).
Proof.
  unfold __multf3.
  destruct a as [sa|sa| |sa ma ea], b as [sb|sb| |sb mb eb];
    cbn [SFmul is_nan is_zero is_infinite];
    try (split; [discriminate
                |intros [H|[H|[[H1 H2]|[H1 H2]]]]; discriminate]);
    try (split; intros; auto; tauto).
  destruct (binary_round_aux_signed (fprec ld) (femax ld) (xorb sa sb)
              (Zpos (ma * mb)) (ea + eb) loc_Exact ltac:(lia)) as [Hn _].
  rewrite Hn.
  split; [discriminate|intros [H|[H|[[H1 H2]|[H1 H2]]]]; discriminate].
Qed.

Lemma multf3_nan_iff_witness :
  is_nan (__multf3 binary64 (S754_infinity false) (S754_zero true)) = true /\
  (is_nan (__multf3 binary64 d_2_9 d_2_9) = true -> False).
Proof.
  split.
  - apply (proj2 (multf3_nan_iff binary64 (S754_infinity false) (S754_zero true))).
    right. right. left. split; reflexivity.
  - intros H.
    destruct (proj1 (multf3_nan_iff binary64 d_2_9 d_2_9) H)
      as [E|[E|[[E _]|[E _]]]]; discriminate E.
Defined.

(** X10: [__divtf3] returns NaN exactly when an operand is NaN, both
    operands are zeros, or both are infinities. *)
Theorem divtf3_nan_iff (ld : fformat) (a b : fp128) :
  is_nan (__divtf3 ld a b) = true <->
  is_nan a = true \/ is_nan b = true \/
  (is_infinite a = true /\ is_infinite b = true) \/
  (is_zero a = true /\ is_zero b = true).
Proof.
  unfold __divtf3.
  destruct a as [sa|sa| |sa ma ea], b as [sb|sb| |sb mb eb];
    cbn [SFdiv is_nan is_zero is_infinite];
    try (split; [discriminate
                |intros [H|[H|[[H1 H2]|[H1 H2]]]]; discriminate]);
    try (split; intros; auto; tauto).
  pose proof (SFdiv_core_nonneg (fprec ld) (femax ld) ma mb ea eb) as Hq.
  destruct (SFdiv_core_binary _ _ _ _ _ _) as [[mz ez] lz]. cbn [fst] in Hq.
  destruct (binary_round_aux_signed (fprec ld) (femax ld) (xorb sa sb)
              mz ez lz Hq) as [Hn _].
  rewrite Hn.
  split; [discriminate|intros [H|[H|[[H1 H2]|[H1 H2]]]]; discriminate].
Qed.

Lemma divtf3_nan_iff_witness :
  is_nan (__divtf3 binary64 (S754_infinity false) (S754_infinity true)) = true /\
  (is_nan (__divtf3 binary64 d_one d_2_9) = true -> False).
Proof.
  split.
  - apply (proj2 (divtf3_nan_iff binary64 (S754_infinity false) (S754_infinity true))).
    right. right. left. split; reflexivity.
  - intros H.
    destruct (proj1 (divtf3_nan_iff binary64 d_one d_2_9) H)
      as [E|[E|[[E _]|[E _]]]]; discriminate E.
Defined.

(** X11: whenever the product or the quotient is not NaN, its sign is
    the exclusive or of the operands' signs (zeros and infinities
    included). *)
Theorem multf3_divtf3_sign (ld : fformat) (a b : fp128) :
  (is_nan (__multf3 ld a b) = false ->
   sign_of (__multf3 ld a b) = xorb (sign_of a) (sign_of b)) /\
  (is_nan (__divtf3 ld a b) = false ->
   sign_of (__divtf3 ld a b) = xorb (sign_of a) (sign_of b)).
Proof.
  unfold __multf3, __divtf3. split.
  - destruct a as [sa|sa| |sa ma ea], b as [sb|sb| |sb mb eb];
      cbn [SFmul is_nan sign_of]; intros H; try discriminate; try reflexivity.
    now destruct (binary_round_aux_signed (fprec ld) (femax ld) (xorb sa sb)
                    (Zpos (ma * mb)) (ea + eb) loc_Exact ltac:(lia)).
  - destruct a as [sa|sa| |sa ma ea], b as [sb|sb| |sb mb eb];
      cbn [SFdiv is_nan sign_of]; intros H; try discriminate; try reflexivity.
    pose proof (SFdiv_core_nonneg (fprec ld) (femax ld) ma mb ea eb) as Hq.
    destruct (SFdiv_core_binary _ _ _ _ _ _) as [[mz ez] lz]. cbn [fst] in Hq.
    now destruct (binary_round_aux_signed (fprec ld) (femax ld) (xorb sa sb)
                    mz ez lz Hq).
Qed.

Lemma multf3_divtf3_sign_witness :
  sign_of (__multf3 binary64 (SFopp d_2_9) d_two) = true /\
  sign_of (__divtf3 binary64 (SFopp d_one) (S754_zero true)) = false.
Proof.
  split.
  - exact (proj1 (multf3_divtf3_sign binary64 (SFopp d_2_9) d_two) eq_refl).
  - exact (proj2 (multf3_divtf3_sign binary64 (SFopp d_one) (S754_zero true))
             eq_refl).
Defined.

Lemma mul_iter_xO_one (m k : positive) :
  (m * Pos.iter xO 1 k = Pos.iter xO m k)%positive.
Proof.
  induction k as [|k IH] using Pos.peano_ind.
  - cbn. lia.
  - rewrite !Pos.iter_succ, Pos.mul_xO_r, IH. reflexivity.
Qed.

(** The number one in a format: mantissa [2^(p-1)], exponent [1 - p]. *)
Lemma fp_of_Z_one (fmt : fformat) :
  1 < fprec fmt -> fprec fmt <= femax fmt ->
  fp_of_Z fmt 1
  = S754_finite false (Pos.iter xO 1%positive (Z.to_pos (fprec fmt - 1)))
      (1 - fprec fmt).
Proof.
  intros Hp He. unfold fp_of_Z, binary_normalize.
  rewrite binary_round_exact; cbn [digits2_pos]; unfold fexp, emin; try lia.
  replace (Z.max (1 + 0 - fprec fmt) (3 - femax fmt - fprec fmt))
    with (1 - fprec fmt) by lia.
  destruct (0 - (1 - fprec fmt)) as [|k|k] eqn:Hk; try lia.
  replace (fprec fmt - 1) with (Zpos k) by lia. reflexivity.
Qed.

(** X12: multiplying a valid operand by one, on either side, returns the
    operand itself, bit for bit (subnormal operands, zeros of either
    sign, infinities and NaN included). *)
Theorem multf3_one_identity (ld : fformat) (a : fp128) :
  1 < fprec ld -> fprec ld <= femax ld ->
  valid_in ld a = true ->
  __multf3 ld a (__floatuntitf ld 1) = a /\
  __multf3 ld (__floatuntitf ld 1) a = a.
Proof.
  intros Hp He Hv.
  assert (H : __multf3 ld a (__floatuntitf ld 1) = a).
  { unfold __multf3, __floatuntitf. rewrite fp_of_Z_one by assumption.
    destruct a as [s|s| |s m e]; cbn [SFmul]; rewrite ?xorb_false_r;
      try reflexivity.
    unfold valid_in in Hv. cbn in Hv. apply andb_prop in Hv.
    destruct Hv as [Hc Hb].
    rewrite mul_iter_xO_one.
    replace (e + (1 - fprec ld))
      with (e - Zpos (Z.to_pos (fprec ld - 1))) by lia.
    rewrite binary_round_aux_scaled by assumption. now rewrite Hb. }
  split; [exact H|]. unfold __multf3 in *. now rewrite SFmul_comm.
Qed.

Lemma multf3_one_identity_witness :
  __multf3 binary64 d_2_9 (__floatuntitf binary64 1) = d_2_9 /\
  __multf3 x87_extended (__floatuntitf x87_extended 1) (q_2_9 x87_extended)
  = q_2_9 x87_extended.
Proof.
  split.
  - refine (proj1 (multf3_one_identity binary64 d_2_9 _ _ _)).
    + cbn. lia.
    + cbn. lia.
    + reflexivity.
  - refine (proj2 (multf3_one_identity x87_extended (q_2_9 x87_extended) _ _ _)).
    + cbn. lia.
    + cbn. lia.
    + vm_compute. reflexivity.
Defined.

(** ** Conversions: what widening keeps, and how conversions compose *)

Lemma pow2Q_shift (e : Z) (k : positive) :
  (inject_Z (2 ^ Zpos k) * pow2Q (e - Zpos k) == pow2Q e)%Q.
Proof.
  set (j := Z.abs e + Zpos k).
  assert (Hj : (0 < inject_Z (2 ^ j))%Q).
  { rewrite <- (Zlt_Qlt 0). apply Z.pow_pos_nonneg; unfold j; lia. }
  apply (Qmult_inj_r _ _ (inject_Z (2 ^ j))).
  - intros E. rewrite E in Hj. discriminate.
  - rewrite <- Qmult_assoc, !pow2Q_scale by (unfold j; lia).
    rewrite <- inject_Z_mult, <- Z.pow_add_r by (unfold j; lia).
    replace (Zpos k + (e - Zpos k + j)) with (e + j) by lia. reflexivity.
Qed.

(** Padding the mantissa with [k] zero bits and lowering the exponent by
    [k] leaves the value as it is. *)
Lemma SF2Q_padded (s : bool) (m k : positive) (e : Z) :
  (inject_Z (cond_Zopp s (Zpos (Pos.iter xO m k))) * pow2Q (e - Zpos k)
   == inject_Z (cond_Zopp s (Zpos m)) * pow2Q e)%Q.
Proof.
  rewrite <- (pow2Q_shift e k), Qmult_assoc.
  apply Qmult_comp; [|reflexivity].
  rewrite <- inject_Z_mult, iter_xO_pow2.
  destruct s; unfold cond_Zopp; rewrite ?Z.mul_opp_l; reflexivity.
Qed.

Section RoundExact.

Variables prec emax : Z.

(** Under the conditions of [binary_round_exact] the result is a valid
    datum of the format and stands for the same number. *)
Lemma binary_round_exact_valid (s : bool) (m : positive) (e : Z) :
  fexp prec emax (Zpos (digits2_pos m) + e) <= e ->
  Zpos (digits2_pos m) + e <= emax ->
  3 - emax <= emax ->
  exists (m' : positive) (e' : Z),
    binary_round prec emax s m e = S754_finite s m' e' /\
    bounded prec emax m' e' = true /\
    (inject_Z (cond_Zopp s (Zpos m')) * pow2Q e'
     == inject_Z (cond_Zopp s (Zpos m)) * pow2Q e)%Q.
Proof.
  intros Hle Hd Hfmt. rewrite binary_round_exact by assumption.
  set (e' := fexp prec emax (Zpos (digits2_pos m) + e)) in *.
  assert (He' : e' <= emax - prec) by (unfold e', fexp, emin in *; lia).
  apply Z.leb_le in He'.
  destruct (e - e') as [|k|k] eqn:Hk; try lia.
  - exists m, e'. split; [reflexivity|]. assert (e' = e) as E by lia. split.
    + unfold bounded, canonical_mantissa. rewrite He', andb_true_r.
      apply Z.eqb_eq. rewrite E at 1. reflexivity.
    + rewrite E. reflexivity.
  - exists (Pos.iter xO m k), e'. split; [reflexivity|]. split.
    + unfold bounded, canonical_mantissa. rewrite He', andb_true_r.
      apply Z.eqb_eq. rewrite digits2_pos_iter_xO.
      replace (Zpos (digits2_pos m) + Zpos k + e')
        with (Zpos (digits2_pos m) + e) by lia.
      reflexivity.
    + replace e' with (e - Zpos k) by lia. apply SF2Q_padded.
Qed.

End RoundExact.

(** Widening a valid datum to a format at least as wide gives a valid
    datum of the same sign and value. *)
Lemma fconv_widen_exact (small big : fformat) (s : bool) (m : positive) (e : Z) :
  wider_than small big -> 1 < femax small ->
  valid_in small (S754_finite s m e) = true ->
  exists (m' : positive) (e' : Z),
    fconv big (S754_finite s m e) = S754_finite s m' e' /\
    valid_in big (S754_finite s m' e') = true /\
    (inject_Z (cond_Zopp s (Zpos m')) * pow2Q e'
     == inject_Z (cond_Zopp s (Zpos m)) * pow2Q e)%Q.
Proof.
  intros [Hp He] Hs Hv. unfold valid_in in Hv. cbn in Hv.
  apply andb_prop in Hv. destruct Hv as [Hc Hb].
  unfold canonical_mantissa, fexp, emin in Hc. apply Z.eqb_eq in Hc.
  apply Z.leb_le in Hb.
  apply binary_round_exact_valid; unfold fexp, emin; lia.
Qed.



(** Widening keeps the outcome of the four-way compare. *)
Lemma SFcompare_fconv (small big : fformat) (f g : spec_float) :
  wider_than small big -> 1 < femax small ->
  valid_in small f = true -> valid_in small g = true ->
  SFcompare (fconv big f) (fconv big g) = SFcompare f g.
Proof.
  intros Hw Hs Vf Vg.
  destruct f as [sf|sf| |sf mf ef], g as [sg|sg| |sg mg eg]; try reflexivity.
  - destruct (fconv_widen_exact small big sg mg eg Hw Hs Vg) as (m' & e' & Hr & _).
    rewrite Hr. reflexivity.
  - destruct (fconv_widen_exact small big sg mg eg Hw Hs Vg) as (m' & e' & Hr & _).
    rewrite Hr. reflexivity.
  - destruct (fconv_widen_exact small big sf mf ef Hw Hs Vf) as (m' & e' & Hr & _).
    rewrite Hr. reflexivity.
  - destruct (fconv_widen_exact small big sf mf ef Hw Hs Vf) as (m' & e' & Hr & _).
    rewrite Hr. reflexivity.
  - destruct (fconv_widen_exact small big sf mf ef Hw Hs Vf) as (m' & e' & Hr & _).
    rewrite Hr. reflexivity.
  - destruct (fconv_widen_exact small big sf mf ef Hw Hs Vf)
      as (mf' & ef' & Hrf & Hvf & Hqf).
    destruct (fconv_widen_exact small big sg mg eg Hw Hs Vg)
      as (mg' & eg' & Hrg & Hvg & Hqg).
    rewrite Hrf, Hrg.
    rewrite (SFcompare_numeric big _ _ _ _ Hvf Hvg eq_refl eq_refl).
    rewrite (SFcompare_numeric small _ _ _ _ Vf Vg eq_refl eq_refl).
    f_equal. now rewrite Hqf, Hqg.
Qed.

(** X14: widening keeps the order: each of the six comparisons, applied
    to two widened floats, returns what it returns on the floats
    themselves. *)
Theorem extendsftf2_preserves_order (ld : fformat) (f g : spec_float) :
  wider_than binary32 ld ->
  valid_in binary32 f = true -> valid_in binary32 g = true ->
  __lttf2 (__extendsftf2 ld f) (__extendsftf2 ld g) = __lttf2 f g /\
  __gttf2 (__extendsftf2 ld f) (__extendsftf2 ld g) = __gttf2 f g /\
  __letf2 (__extendsftf2 ld f) (__extendsftf2 ld g) = __letf2 f g /\
  __getf2 (__extendsftf2 ld f) (__extendsftf2 ld g) = __getf2 f g /\
  __eqtf2 (__extendsftf2 ld f) (__extendsftf2 ld g) = __eqtf2 f g /\
  __netf2 (__extendsftf2 ld f) (__extendsftf2 ld g) = __netf2 f g.
Proof.
  intros Hw Vf Vg.
  pose proof (SFcompare_fconv binary32 ld f g Hw ltac:(cbn; lia) Vf Vg) as Hc.
  unfold __lttf2, __gttf2, __letf2, __getf2, __eqtf2, __netf2, __extendsftf2,
    fp_lt, fp_gt, fp_le, fp_ge, fp_eq, fp_ne, SFltb, SFleb, SFeqb.
  rewrite Hc. repeat split.
Qed.

Lemma extendsftf2_preserves_order_witness :
  __lttf2 (__extendsftf2 binary64 (S754_zero true)) (__extendsftf2 binary64 f_2_9)
  = -1.
Proof.
  refine (eq_trans (proj1 (extendsftf2_preserves_order binary64
                             (S754_zero true) f_2_9 _ _ _)) _).
  - split; cbn; lia.
  - reflexivity.
  - reflexivity.
  - reflexivity.
Defined.

(** An integer is its own truncation. *)
Lemma truncates_integer (a : Z) (q : Q) :
  (q == inject_Z a)%Q -> truncates_toward_zero a q.
Proof.
  destruct q as [n d]. unfold Qeq. cbn [Qnum Qden inject_Z].
  rewrite Z.mul_1_r. intros ->. q_to_z.
  assert (0 < Zpos d) by lia. set (D := Zpos d) in *.
  rewrite Z.abs_mul, (Z.abs_eq D) by lia.
  repeat split; nia.
Qed.

Lemma integral_part_represents (x : spec_float) (a : Z) :
  represents x a -> integral_part x = Some a.
Proof.
  unfold represents. destruct (SF2Q x) as [q|] eqn:Hq; [|contradiction].
  intros Hr. destruct (integral_part_truncates x q Hq) as (z & Hz & Ht).
  rewrite Hz. f_equal.
  exact (truncation_unique z a q Ht (truncates_integer a q Hr)).
Qed.

(** X15: an integer converted to quad and back is unchanged: for [a] in
    the range of [int], resp. of [unsigned int], [__fixtfsi], resp.
    [__fixunstfsi], of [__floatuntitf a] is [a], on every [long double]
    with at least 32 significand bits. *)
Theorem fix_floatuntitf_roundtrip (ld : fformat) (a : Z) :
  32 <= fprec ld -> fprec ld <= femax ld ->
  (0 <= a <= INT_MAX -> __fixtfsi (__floatuntitf ld a) = Some a) /\
  (0 <= a <= UINT_MAX -> __fixunstfsi (__floatuntitf ld a) = Some a).
Proof.
  intros Hp He.
  assert (H32 : 2 ^ 32 <= 2 ^ fprec ld) by (apply Z.pow_le_mono_r; lia).
  assert (Hi : forall lo hi, lo <= 0 -> hi < 2 ^ 32 -> 0 <= a <= hi ->
                cast_to_integer lo hi (__floatuntitf ld a) = Some a).
  { intros lo hi Hlo Hhi Ha. unfold cast_to_integer, __floatuntitf.
    rewrite (integral_part_represents _ a) by (apply fp_of_Z_exact; lia).
    destruct (Z.leb_spec lo a), (Z.leb_spec a hi); try lia. reflexivity. }
  unfold __fixtfsi, __fixunstfsi, INT_MIN, INT_MAX, UINT_MAX in *.
  split; intros Ha; apply Hi; lia.
Qed.

Lemma fix_floatuntitf_roundtrip_witness :
  __fixtfsi (__floatuntitf binary64 2147483647) = Some 2147483647 /\
  __fixunstfsi (__floatuntitf x87_extended 4294967295) = Some 4294967295.
Proof.
  split.
  - refine (proj1 (fix_floatuntitf_roundtrip binary64 2147483647 _ _) _);
      cbn; unfold INT_MAX; lia.
  - refine (proj2 (fix_floatuntitf_roundtrip x87_extended 4294967295 _ _) _);
      cbn; unfold UINT_MAX; lia.
Defined.

Lemma truncation_monotone (za zb : Z) (va vb : Q) :
  truncates_toward_zero za va -> truncates_toward_zero zb vb ->
  (va <= vb)%Q -> za <= zb.
Proof.
  intros (A1 & A2 & A3) (B1 & B2 & B3). destruct va as [na da], vb as [nb db].
  revert A1 A2 A3 B1 B2 B3. q_to_z. intros.
  set (Da := Zpos da) in *. set (Db := Zpos db) in *.
  assert (0 < Da) by (unfold Da; lia). assert (0 < Db) by (unfold Db; lia).
  destruct (Z.abs_spec za) as [[? Hza]|[? Hza]],
           (Z.abs_spec na) as [[? Hna]|[? Hna]],
           (Z.abs_spec zb) as [[? Hzb]|[? Hzb]],
           (Z.abs_spec nb) as [[? Hnb]|[? Hnb]];
    rewrite Hza, Hna, Hzb, Hnb in *; nia.
Qed.

(** X16: the conversions to integers are monotone: when [__letf2]
    reports [a <= b] and both conversions are defined, the integer of [a]
    is at most the integer of [b]. *)
Theorem fix_monotone (ld : fformat) (a b : fp128) (za zb : Z) :
  valid_in ld a = true -> valid_in ld b = true ->
  __letf2 a b = 0 ->
  (__fixtfsi a = Some za -> __fixtfsi b = Some zb -> za <= zb) /\
  (__fixunstfsi a = Some za -> __fixunstfsi b = Some zb -> za <= zb).
Proof.
  intros Va Vb Hle.
  assert (H : forall lo hi, cast_to_integer lo hi a = Some za ->
                cast_to_integer lo hi b = Some zb -> za <= zb).
  { intros lo hi Ha Hb. unfold cast_to_integer in Ha, Hb.
    destruct (integral_part a) as [ia|] eqn:Ia; [|discriminate].
    destruct (integral_part b) as [ib|] eqn:Ib; [|discriminate].
    destruct ((lo <=? ia) && (ia <=? hi)); [|discriminate].
    destruct ((lo <=? ib) && (ib <=? hi)); [|discriminate].
    injection Ha as ->. injection Hb as ->.
    destruct (SF2Q a) as [va|] eqn:Qa; [|destruct a; discriminate].
    destruct (SF2Q b) as [vb|] eqn:Qb; [|destruct b; discriminate].
    destruct (integral_part_truncates a va Qa) as (z1 & Hz1 & Ht1).
    destruct (integral_part_truncates b vb Qb) as (z2 & Hz2 & Ht2).
    rewrite Ia in Hz1. rewrite Ib in Hz2.
    injection Hz1 as <-. injection Hz2 as <-.
    apply (truncation_monotone za zb va vb Ht1 Ht2).
    destruct (fp_operators_numeric ld a b va vb (conj Va Qa) (conj Vb Qb))
      as (_ & _ & _ & Nle & _).
    apply Nle. unfold __letf2 in Hle.
    destruct (fp_le a b); [reflexivity|discriminate]. }
  split; apply H.
Qed.

Lemma fix_monotone_witness :
  __letf2 (SFopp d_2_9) d_2_9 = 0 /\
  __fixtfsi (SFopp d_2_9) = Some (-2) /\ __fixtfsi d_2_9 = Some 2 /\
  -2 <= 2.
Proof.
  split; [reflexivity|]. split; [reflexivity|]. split; [reflexivity|].
  refine (proj1 (fix_monotone binary64 (SFopp d_2_9) d_2_9 (-2) 2 _ _ _) _ _);
    reflexivity.
Defined.

Lemma truncates_Qeq (z : Z) (v w : Q) :
  (v == w)%Q -> truncates_toward_zero z v -> truncates_toward_zero z w.
Proof.
  intros E (H1 & H2 & H3). unfold truncates_toward_zero.
  rewrite <- E. repeat split; assumption.
Qed.

Lemma integral_part_Qeq (x y : spec_float) (v w : Q) :
  SF2Q x = Some v -> SF2Q y = Some w -> (v == w)%Q ->
  integral_part x = integral_part y.
Proof.
  intros Hx Hy E.
  destruct (integral_part_truncates x v Hx) as (zx & Hzx & Htx).
  destruct (integral_part_truncates y w Hy) as (zy & Hzy & Hty).
  rewrite Hzx, Hzy. f_equal.
  apply (truncation_unique zx zy w); [|assumption].
  now apply (truncates_Qeq zx v w).
Qed.

(** X17: converting a float to an integer by way of quad gives what the
    cast of the float itself gives: [__fixtfsi (__extendsftf2 f)] is
    [(int) f] and [__fixunstfsi (__extendsftf2 f)] is [(unsigned) f],
    defined or not alike. *)
Theorem fix_extendsftf2_native (ld : fformat) (f : spec_float) :
  wider_than binary32 ld ->
  valid_in binary32 f = true ->
  __fixtfsi (__extendsftf2 ld f) = cast_to_integer INT_MIN INT_MAX f /\
  __fixunstfsi (__extendsftf2 ld f) = cast_to_integer 0 UINT_MAX f.
Proof.
  intros Hw Hv.
  assert (H : integral_part (__extendsftf2 ld f) = integral_part f).
  { unfold __extendsftf2. destruct f as [s|s| |s m e]; try reflexivity.
    destruct (fconv_widen_exact binary32 ld s m e Hw ltac:(cbn; lia) Hv)
      as (m' & e' & Hr & _ & Hq).
    rewrite Hr.
    exact (integral_part_Qeq (S754_finite s m' e') (S754_finite s m e) _ _
             eq_refl eq_refl Hq). }
  unfold __fixtfsi, __fixunstfsi, cast_to_integer. rewrite H. split; reflexivity.
Qed.

Lemma fix_extendsftf2_native_witness :
  __fixtfsi (__extendsftf2 binary64 f_2_9) = Some 2 /\
  __fixunstfsi (__extendsftf2 x87_extended f_2_9) = Some 2.
Proof.
  split.
  - refine (eq_trans (proj1 (fix_extendsftf2_native binary64 f_2_9 _ _)) _).
    + split; cbn; lia.
    + reflexivity.
    + reflexivity.
  - refine (eq_trans (proj2 (fix_extendsftf2_native x87_extended f_2_9 _ _)) _).
    + split; cbn; lia.
    + reflexivity.
    + reflexivity.
Defined.

(** X18: no conversion makes a NaN of a number or changes a sign:
    widening and narrowing return NaN only for NaN and keep the sign of
    their operand (also when narrowing overflows to an infinity or
    underflows to a zero), and the quad of an unsigned integer is neither
    NaN nor negative. *)
Theorem conversions_keep_sign (ld : fformat) :
  (forall f : spec_float,
     is_nan (__extendsftf2 ld f) = is_nan f /\
     sign_of (__extendsftf2 ld f) = sign_of f) /\
  (forall q : fp128,
     is_nan (__trunctfsf2 q) = is_nan q /\
     sign_of (__trunctfsf2 q) = sign_of q) /\
  (forall a : Z, 0 <= a ->
     is_nan (__floatuntitf ld a) = false /\
     sign_of (__floatuntitf ld a) = false).
Proof.
  unfold __extendsftf2, __trunctfsf2, __floatuntitf, fconv, fp_of_Z,
    binary_normalize.
  split; [|split].
  - intros [s|s| |s m e]; try (split; reflexivity). apply binary_round_signed.
  - intros [s|s| |s m e]; try (split; reflexivity). apply binary_round_signed.
  - intros [|m|m] Ha; try lia; [split; reflexivity|apply binary_round_signed].
Qed.

Lemma conversions_keep_sign_witness :
  is_nan (__floatuntitf binary64 18446744073709551615) = false /\
  sign_of (__floatuntitf binary64 18446744073709551615) = false.
Proof.
  refine (proj2 (proj2 (conversions_keep_sign binary64)) 18446744073709551615 _).
  lia.
Defined.

(** ** Products of integers *)

(** A positive integer that fits the significand converts to its
    mantissa padded to full width. *)
Lemma fp_of_Z_shape (fmt : fformat) (m : positive) :
  1 < fprec fmt -> fprec fmt <= femax fmt ->
  Zpos m < 2 ^ fprec fmt ->
  exists (M : positive),
    let k := fprec fmt - Zpos (digits2_pos m) in
    fp_of_Z fmt (Zpos m) = S754_finite false M (- k) /\
    0 <= k /\ Zpos M = Zpos m * 2 ^ k /\
    canonical_mantissa (fprec fmt) (femax fmt) M (- k) = true.
Proof.
  intros Hp He Hm. pose proof (digits2_pos_le m _ Hm) as Hd.
  unfold fp_of_Z, binary_normalize.
  rewrite binary_round_exact; unfold fexp, emin; try lia.
  set (d := Zpos (digits2_pos m)) in *. assert (0 < d) by (unfold d; lia).
  replace (Z.max (d + 0 - fprec fmt) (3 - femax fmt - fprec fmt))
    with (- (fprec fmt - d)) by lia.
  destruct (0 - - (fprec fmt - d)) as [|k|k] eqn:Hk; try lia.
  - exists m. cbv zeta. replace (fprec fmt - d) with 0 by lia.
    repeat split; try lia.
    unfold canonical_mantissa, fexp, emin. apply Z.eqb_eq. fold d. lia.
  - exists (Pos.iter xO m k). cbv zeta.
    replace (fprec fmt - d) with (Zpos k) by lia.
    repeat split; try lia.
    + apply iter_xO_pow2.
    + unfold canonical_mantissa, fexp, emin. apply Z.eqb_eq.
      rewrite digits2_pos_iter_xO. fold d. lia.
Qed.

(** A product has at least one digit less than its factors together. *)
Lemma digits2_pos_mul_lower (a b : positive) :
  Zpos (digits2_pos a) + Zpos (digits2_pos b) - 1 <= Zpos (digits2_pos (a * b)).
Proof.
  pose proof (digits2_pos_lower a) as Ha.
  pose proof (digits2_pos_lower b) as Hb.
  pose proof (digits2_pos_upper (a * b)) as Hc.
  set (da := Zpos (digits2_pos a)) in *. set (db := Zpos (digits2_pos b)) in *.
  set (dc := Zpos (digits2_pos (a * b))) in *.
  assert (0 < da) by (unfold da; lia). assert (0 < db) by (unfold db; lia).
  assert (0 < dc) by (unfold dc; lia).
  assert (Hp : 2 ^ (da - 1 + (db - 1)) <= Zpos a * Zpos b).
  { rewrite Z.pow_add_r by lia. apply Z.mul_le_mono_nonneg; try assumption;
      apply Z.pow_nonneg; lia. }
  rewrite Pos2Z.inj_mul in Hc.
  assert (Hlt : 2 ^ (da - 1 + (db - 1)) < 2 ^ dc) by lia.
  apply Z.pow_lt_mono_r_iff in Hlt; lia.
Qed.

(** X19: the product of two converted integers is the conversion of
    their product, exactly, whenever the factors and the product fit the
    significand: [__multf3 (__floatuntitf a) (__floatuntitf b)] is
    [__floatuntitf (a * b)] and is numerically [a * b]. *)
Theorem multf3_floatuntitf_exact (ld : fformat) (a b : Z) :
  1 < fprec ld -> fprec ld <= femax ld ->
  0 <= a < 2 ^ fprec ld -> 0 <= b < 2 ^ fprec ld -> a * b < 2 ^ fprec ld ->
  __multf3 ld (__floatuntitf ld a) (__floatuntitf ld b)
  = __floatuntitf ld (a * b) /\
  represents (__multf3 ld (__floatuntitf ld a) (__floatuntitf ld b)) (a * b).
Proof.
  intros Hp He Ha Hb Hab.
  assert (Heq : __multf3 ld (__floatuntitf ld a) (__floatuntitf ld b)
                = __floatuntitf ld (a * b)).
  { unfold __multf3, __floatuntitf.
    destruct a as [|ma|ma], b as [|mb|mb]; try lia; try reflexivity.
    - destruct (fp_of_Z_shape ld mb Hp He (proj2 Hb)) as (Mb & Rb & _).
      cbv zeta in Rb. rewrite Rb. reflexivity.
    - destruct (fp_of_Z_shape ld ma Hp He (proj2 Ha)) as (Ma & Ra & _).
      cbv zeta in Ra. rewrite Z.mul_0_r, Ra. reflexivity.
    - destruct Ha as [_ Hma], Hb as [_ Hmb].
      rewrite <- Pos2Z.inj_mul in *.
      destruct (fp_of_Z_shape ld ma Hp He Hma) as (Ma & Ra & Ka & Za & _).
      destruct (fp_of_Z_shape ld mb Hp He Hmb) as (Mb & Rb & Kb & Zb & _).
      destruct (fp_of_Z_shape ld (ma * mb) Hp He Hab) as (Mc & Rc & Kc & Zc & Cc).
      pose proof (digits2_pos_mul_lower ma mb) as Hd.
      cbv zeta in *. rewrite Ra, Rb, Rc. cbn [SFmul xorb].
      set (ka := fprec ld - Zpos (digits2_pos ma)) in *.
      set (kb := fprec ld - Zpos (digits2_pos mb)) in *.
      set (kc := fprec ld - Zpos (digits2_pos (ma * mb))) in *.
      destruct (ka + kb - kc) as [|K|K] eqn:HK; try lia.
      assert (HM : (Ma * Mb)%positive = Pos.iter xO Mc K).
      { assert (E : 2 ^ ka * 2 ^ kb = 2 ^ kc * 2 ^ Zpos K).
        { rewrite <- !Z.pow_add_r by lia. f_equal. lia. }
        apply Pos2Z.inj.
        rewrite iter_xO_pow2, Pos2Z.inj_mul, Za, Zb, Zc, Pos2Z.inj_mul.
        transitivity (Zpos ma * Zpos mb * (2 ^ ka * 2 ^ kb)); [ring|].
        rewrite E. ring. }
      rewrite HM. replace (- ka + - kb) with (- kc - Zpos K) by lia.
      rewrite binary_round_aux_scaled by assumption.
      destruct (Z.leb_spec (- kc) (femax ld - fprec ld)); [reflexivity|lia]. }
  split; [exact Heq|]. rewrite Heq. unfold __floatuntitf.
  apply fp_of_Z_exact; [lia|lia|].
  split; [apply Z.mul_nonneg_nonneg; lia|lia].
Qed.

Lemma multf3_floatuntitf_exact_witness :
  __multf3 binary64 (__floatuntitf binary64 94906265) (__floatuntitf binary64 94906263)
  = __floatuntitf binary64 9007198946437695.
Proof.
  refine (proj1 (multf3_floatuntitf_exact binary64 94906265 94906263 _ _ _ _ _));
    cbn; lia.
Defined.

(** ** Exact quotients *)

Lemma new_location_zero (n : Z) : new_location n 0 = loc_Exact.
Proof.
  unfold new_location, new_location_even, new_location_odd.
  destruct (Z.even n); reflexivity.
Qed.

Lemma div_eucl_exact (q d : Z) :
  0 < d -> Z.div_eucl (q * d) d = (q, 0).
Proof.
  intros Hd. rewrite (surjective_pairing (Z.div_eucl (q * d) d)).
  change (fst (Z.div_eucl (q * d) d)) with (q * d / d).
  change (snd (Z.div_eucl (q * d) d)) with ((q * d) mod d).
  rewrite Z.div_mul, Z.mod_mul by lia. reflexivity.
Qed.

(** X20: dividing a valid operand by one returns the operand itself, bit
    for bit (subnormal operands, zeros of either sign, infinities and NaN
    included). *)
Theorem divtf3_one_identity (ld : fformat) (a : fp128) :
  1 < fprec ld -> fprec ld <= femax ld ->
  valid_in ld a = true ->
  __divtf3 ld a (__floatuntitf ld 1) = a.
Proof.
  intros Hp He Hv. unfold __divtf3, __floatuntitf.
  rewrite fp_of_Z_one by assumption.
  destruct a as [s|s| |s m e]; cbn [SFdiv]; rewrite ?xorb_false_r;
    try reflexivity.
  unfold valid_in in Hv. cbn in Hv. apply andb_prop in Hv.
  destruct Hv as [Hc Hb].
  pose proof Hc as Hc'. unfold canonical_mantissa, fexp, emin in Hc'.
  apply Z.eqb_eq in Hc'.
  set (p := fprec ld) in *. set (k := Z.to_pos (p - 1)).
  assert (Hk : Zpos k = p - 1) by (unfold k; lia).
  unfold SFdiv_core_binary. cbn [Zdigits2].
  rewrite digits2_pos_iter_xO. cbn [digits2_pos]. rewrite Hk.
  set (d := Zpos (digits2_pos m)) in *. assert (0 < d) by (unfold d; lia).
  replace (d + e - (1 + (p - 1) + (1 - p))) with (d + e - 1) by lia.
  set (e' := Z.min (fexp p (femax ld) (d + e - 1)) (e - (1 - p))).
  assert (He' : e' = e \/ e' = e - 1) by (unfold e', fexp, emin; lia).
  assert (HM : Zpos (Pos.iter xO 1%positive k) = 2 ^ (p - 1))
    by (rewrite iter_xO_pow2, Hk; lia).
  destruct (e - (1 - p) - e') as [|j|j] eqn:Hj; try lia.
  rewrite Z.shiftl_mul_pow2 by lia.
  replace (Zpos m * 2 ^ Zpos j)
    with (Zpos m * 2 ^ (e - e') * Zpos (Pos.iter xO 1%positive k)).
  2:{ rewrite HM, <- Z.mul_assoc, <- Z.pow_add_r by lia. do 2 f_equal. lia. }
  rewrite div_eucl_exact by lia. rewrite new_location_zero.
  destruct He' as [E|E].
  - replace (e - e') with 0 by lia. rewrite Z.mul_1_r, E.
    rewrite binary_round_aux_canonical by assumption. now rewrite Hb.
  - replace (e - e') with 1 by lia.
    replace (Zpos m * 2 ^ 1) with (Zpos (Pos.iter xO m 1))
      by (rewrite iter_xO_pow2; reflexivity).
    replace e' with (e - Zpos 1) by lia.
    rewrite binary_round_aux_scaled by assumption. now rewrite Hb.
Qed.

Lemma divtf3_one_identity_witness :
  __divtf3 binary64 d_2_9 (__floatuntitf binary64 1) = d_2_9 /\
  __divtf3 x87_extended (q_2_9 x87_extended) (__floatuntitf x87_extended 1)
  = q_2_9 x87_extended.
Proof.
  split.
  - refine (divtf3_one_identity binary64 d_2_9 _ _ _).
    + cbn. lia.
    + cbn. lia.
    + reflexivity.
  - refine (divtf3_one_identity x87_extended (q_2_9 x87_extended) _ _ _).
    + cbn. lia.
    + cbn. lia.
    + vm_compute. reflexivity.
Defined.

Lemma digits2_pos_mul_upper (a b : positive) :
  Zpos (digits2_pos (a * b)) <= Zpos (digits2_pos a) + Zpos (digits2_pos b).
Proof.
  apply digits2_pos_le. rewrite Pos2Z.inj_mul, Z.pow_add_r by lia.
  pose proof (digits2_pos_upper a). pose proof (digits2_pos_upper b).
  apply Z.mul_lt_mono_nonneg; lia.
Qed.

Lemma digits2_pos_padded (m M : positive) (k : Z) :
  0 <= k -> Zpos M = Zpos m * 2 ^ k ->
  Zpos (digits2_pos M) = Zpos (digits2_pos m) + k.
Proof.
  intros Hk HM. destruct k as [|k|k]; try lia.
  - rewrite Z.pow_0_r, Z.mul_1_r in HM. injection HM as ->. lia.
  - rewrite <- iter_xO_pow2 in HM. injection HM as ->.
    apply digits2_pos_iter_xO.
Qed.

(** X21: division undoes an exact product: for positive integers [a],
    [b] whose product fits the significand, the quad of [a * b] divided
    by the quad of [b] is the quad of [a], with no rounding. *)
Theorem divtf3_floatuntitf_exact (ld : fformat) (a b : Z) :
  1 < fprec ld -> fprec ld + 2 <= femax ld ->
  0 < a -> 0 < b -> a * b < 2 ^ fprec ld ->
  __divtf3 ld (__floatuntitf ld (a * b)) (__floatuntitf ld b)
  = __floatuntitf ld a.
Proof.
  intros Hp He Ha Hb Hab. unfold __divtf3, __floatuntitf.
  destruct a as [|ma|ma], b as [|mb|mb]; try lia.
  assert (Hma : Zpos ma < 2 ^ fprec ld) by nia.
  assert (Hmb : Zpos mb < 2 ^ fprec ld) by nia.
  rewrite <- Pos2Z.inj_mul in *.
  destruct (fp_of_Z_shape ld ma Hp ltac:(lia) Hma) as (Ma & Ra & Ka & Za & Ca).
  destruct (fp_of_Z_shape ld mb Hp ltac:(lia) Hmb) as (Mb & Rb & Kb & Zb & _).
  destruct (fp_of_Z_shape ld (ma * mb) Hp ltac:(lia) Hab)
    as (Mc & Rc & Kc & Zc & _).
  pose proof (digits2_pos_mul_lower ma mb) as Hd1.
  pose proof (digits2_pos_mul_upper ma mb) as Hd2.
  cbv zeta in *. rewrite Ra, Rb, Rc. cbn [SFdiv xorb].
  pose proof (digits2_pos_padded _ _ _ Kb Zb) as Db.
  pose proof (digits2_pos_padded _ _ _ Kc Zc) as Dc.
  set (p := fprec ld) in *.
  set (ka := p - Zpos (digits2_pos ma)) in *.
  set (kb := p - Zpos (digits2_pos mb)) in *.
  set (kc := p - Zpos (digits2_pos (ma * mb))) in *.
  assert (0 < Zpos (digits2_pos ma)) by lia.
  assert (0 < Zpos (digits2_pos mb)) by lia.
  unfold SFdiv_core_binary. cbn [Zdigits2]. rewrite Db, Dc.
  set (e' := Z.min _ _).
  assert (He' : e' = kb - kc - p) by (unfold e', fexp, emin; fold p; lia).
  replace (- kc - - kb - e') with p by lia.
  destruct p as [|pp|pp] eqn:Ep; try lia. rewrite <- Ep in *.
  rewrite Z.shiftl_mul_pow2 by lia.
  replace (Zpos Mc * 2 ^ p) with (Zpos Ma * 2 ^ (- ka - e') * Zpos Mb).
  2:{ rewrite Za, Zb, Zc, Pos2Z.inj_mul.
      transitivity (Zpos ma * Zpos mb * (2 ^ ka * 2 ^ (- ka - e') * 2 ^ kb));
        [ring|].
      transitivity (Zpos ma * Zpos mb * (2 ^ kc * 2 ^ p)); [|ring].
      rewrite <- !Z.pow_add_r by lia. do 2 f_equal. lia. }
  rewrite div_eucl_exact by lia. rewrite new_location_zero.
  assert (HK : - ka - e' = 0 \/ - ka - e' = 1) by (unfold ka, kb, kc in *; lia).
  destruct HK as [E|E]; rewrite E.
  - rewrite Z.mul_1_r. replace e' with (- ka) by lia.
    rewrite binary_round_aux_canonical by assumption.
    destruct (Z.leb_spec (- ka) (femax ld - p)); [reflexivity|lia].
  - replace (Zpos Ma * 2 ^ 1) with (Zpos (Pos.iter xO Ma 1))
      by (rewrite iter_xO_pow2; reflexivity).
    replace e' with (- ka - Zpos 1) by lia.
    rewrite binary_round_aux_scaled by assumption.
    destruct (Z.leb_spec (- ka) (femax ld - p)); [reflexivity|lia].
Qed.

Lemma divtf3_floatuntitf_exact_witness :
  __divtf3 binary64 (__floatuntitf binary64 (94906265 * 94906263))
    (__floatuntitf binary64 94906263)
  = __floatuntitf binary64 94906265.
Proof.
  refine (divtf3_floatuntitf_exact binary64 94906265 94906263 _ _ _ _ _);
    cbn; lia.
Defined.
